(** * Image scraper job pipeline: a shallow embedding of
      [backend/google_image_scraper.py] and the properties of its job
      lifecycle, extractor and fetcher.

    The Python module keeps one global dictionary [job_statuses], creates
    jobs in [start_scrape], runs [scrape_images_task] as a background task and
    answers [get_job_status] and [cancel_job].  Everything the module obtains
    from outside (the browser, the network, the file system, the clock, the
    library functions [int], [base64.b64decode] and [repr], the text of
    pydantic's errors) is read from a [World] record of oracles; the
    module's own control flow is translated statement by statement into a
    state-and-exception monad. *)

From Stdlib Require Import ZArith String Ascii List Lia.
From stdpp Require Import base option list gmap strings pretty.

(** ** Python values and exceptions *)

Definition bytes := list Byte.byte.

(** [HTTPException] is fastapi's.  [KeyError key] is what a subscript of a
    dict raises for a missing key.  [ValidationError model field] is
    pydantic's, raised when [model] is built with [None] for [field], which
    it declares [int].  [Exception] stands for every other exception class
    (ValueError, binascii.Error, OSError, requests and selenium errors),
    carrying the text of [str(e)]. *)
Inductive exn :=
| HTTPException (status_code : Z) (detail : string)
| KeyError (key : string)
| ValidationError (model field : string)
| Exception (msg : string).

Inductive result (A : Type) :=
| Ok (a : A)
| Raise (e : exn).
Arguments Ok {A} a.
Arguments Raise {A} e.

Definition is_ok {A} (r : result A) : bool :=
  match r with Ok _ => true | Raise _ => false end.

Definition rbind {A B} (r : result A) (k : A -> result B) : result B :=
  match r with
  | Ok a => k a
  | Raise e => Raise e
  end.

(** [try: body / except Exception as e: handler e] without state. *)
Definition rtry {A} (body : result A) (handler : exn -> result A) : result A :=
  match body with
  | Ok a => Ok a
  | Raise e => handler e
  end.

(** ** String helpers: [str.startswith], [in], [str.split(sep, 1)],
       [os.path.join] *)

Definition startswith (pre s : string) : bool := String.prefix pre s.

(** [sub in s] *)
Fixpoint contains (sub s : string) : bool :=
  String.prefix sub s ||
  match s with
  | EmptyString => false
  | String _ s' => contains sub s'
  end.

(** [s.split(c, 1)] for a one-character separator: [None] when the separator
    does not occur (Python returns the one-element list [[s]]), else the text
    before and after its first occurrence. *)
Fixpoint split_once (c : ascii) (s : string) : option (string * string) :=
  match s with
  | EmptyString => None
  | String a s' =>
      if Ascii.eqb a c then Some (EmptyString, s')
      else match split_once c s' with
           | Some (h, t) => Some (String a h, t)
           | None => None
           end
  end.

Fixpoint endswith_char (c : ascii) (s : string) : bool :=
  match s with
  | EmptyString => false
  | String a EmptyString => Ascii.eqb a c
  | String _ s' => endswith_char c s'
  end.

(** [os.path.join(a, b)] of posixpath. *)
Definition os_path_join (a b : string) : string :=
  if startswith "/" b then b
  else if String.eqb a "" || endswith_char "/" a then a +:+ b
  else a +:+ "/" +:+ b.

(** Truthiness of an [Optional[str]]: [None] and the empty string are falsy. *)
Definition truthy (o : option string) : bool :=
  match o with
  | Some s => negb (String.eqb s "")
  | None => false
  end.

(** [x or y] on optional strings. *)
Definition py_or (x y : option string) : option string :=
  if truthy x then x else y.

(** [l[:n]] for an [Optional[int]] [n]: [None] keeps the whole list, a
    negative bound counts from the end. *)
Definition slice_to {A} (n : option Z) (l : list A) : list A :=
  match n with
  | None => l
  | Some n =>
      if (0 <=? n)%Z then take (Z.to_nat n) l
      else take (length l - Z.to_nat (- n)) l
  end.

(** ** Data model *)

(** The value stored under a job id in [job_statuses]: a dict with exactly
    these four keys.  ["total_images"] holds [request.num_images] as it
    came, an int or [None]. *)
Record Job := {
  status : string;
  images_scraped : Z;
  total_images : option Z;
  folder_path : string;
}.

Module ScrapeRequest.
(** The request as the handler receives it.  [num_images: Optional[int] =
    10]: a body without the field gives [Some 10], a body with
    ["num_images": null] gives [None]. *)
Record t := {
  search_term : string;
  num_images : option Z;
  folder_name : option string;
}.
End ScrapeRequest.

Module ScrapeResponse.
Record t := {
  job_id : string;
  status : string;
  folder_path : string;
}.
End ScrapeResponse.

Module JobStatus.
Record t := {
  job_id : string;
  status : string;
  images_scraped : Z;
  total_images : Z;
  folder_path : string;
}.
End JobStatus.

(** An [<img>] element as [get_attribute] shows it: each attribute is a
    string or [None]. *)
Record Img := {
  src : option string;
  data_src : option string;
  width : option string;
  height : option string;
}.

Record Response := {
  status_code : Z;
  content : bytes;
}.

(** ** The outside world *)

Record World := {
  (** [str(uuid.uuid4())] *)
  uuid4 : string;
  (** [datetime.now().strftime('%Y%m%d_%H%M%S')] *)
  now : string;
  (** [os.makedirs(path, exist_ok=True)] *)
  makedirs : string -> result unit;
  (** [webdriver.Chrome(service=..., options=...)] *)
  webdriver_Chrome : result unit;
  (** [driver.get(url)] *)
  driver_get : string -> result unit;
  (** [driver.execute_script("window.scrollTo(...)")] in iteration [i] *)
  scroll_to : nat -> result unit;
  (** the [k]-th [driver.execute_script("return document.body.scrollHeight")] *)
  scroll_height : nat -> result Z;
  (** [driver.find_elements(By.TAG_NAME, 'img')] *)
  find_elements : result (list Img);
  (** Python's [int(s)] on a string *)
  int : string -> result Z;
  (** [base64.b64decode(s)] *)
  b64decode : string -> result bytes;
  (** [requests.get(url, timeout=10)], by the number of GETs issued before *)
  requests_get : nat -> string -> result Response;
  (** [open(path, 'wb')] followed by [f.write(data)] *)
  open_wb : string -> result unit;
  (** [driver.quit()] *)
  driver_quit : result unit;
  (** Python's [repr(s)] of a str, which is the text of [str(KeyError(s))] *)
  repr : string -> string;
  (** the text of pydantic's [ValidationError] for a model and a field *)
  validation_text : string -> string -> string;
}.

(** [str(e)]; for [HTTPException] the text is "<status_code>: <detail>". *)
Definition str_exn (w : World) (e : exn) : string :=
  match e with
  | HTTPException c d => pretty c +:+ ": " +:+ d
  | KeyError k => repr w k
  | ValidationError model field => validation_text w model field
  | Exception m => m
  end.

(** ** Program state *)

Record State := {
  (** the module-level dict [job_statuses] *)
  job_statuses : gmap string Job;
  (** files on disk, by path *)
  files : gmap string bytes;
  (** number of HTTP GETs issued so far *)
  gets : nat;
  (** browser sessions by handle: [true] while the process is alive *)
  drivers : list bool;
}.

Definition set_job_statuses (f : gmap string Job -> gmap string Job) (st : State) : State :=
  {| job_statuses := f (job_statuses st); files := files st;
     gets := gets st; drivers := drivers st |}.

Definition set_files (f : gmap string bytes -> gmap string bytes) (st : State) : State :=
  {| job_statuses := job_statuses st; files := f (files st);
     gets := gets st; drivers := drivers st |}.

Definition set_gets (f : nat -> nat) (st : State) : State :=
  {| job_statuses := job_statuses st; files := files st;
     gets := f (gets st); drivers := drivers st |}.

Definition set_drivers (f : list bool -> list bool) (st : State) : State :=
  {| job_statuses := job_statuses st; files := files st;
     gets := gets st; drivers := f (drivers st) |}.

Definition init_state : State :=
  {| job_statuses := ∅; files := ∅; gets := 0; drivers := [] |}.

(** ** State and exception monad

    A raised exception keeps the state changes made before it, as in
    Python. *)

Definition M (A : Type) : Type := State -> result A * State.

Definition ret {A} (a : A) : M A := fun st => (Ok a, st).

Definition raise {A} (e : exn) : M A := fun st => (Raise e, st).

Definition bind {A B} (m : M A) (k : A -> M B) : M B := fun st =>
  match m st with
  | (Ok a, st') => k a st'
  | (Raise e, st') => (Raise e, st')
  end.

Definition lift {A} (r : result A) : M A := fun st => (r, st).

(** [try: body / except Exception as e: handler e] *)
Definition try_except {A} (body : M A) (handler : exn -> M A) : M A := fun st =>
  match body st with
  | (Ok a, st') => (Ok a, st')
  | (Raise e, st') => handler e st'
  end.

Declare Scope py_scope.
Delimit Scope py_scope with py.
Notation "'let*' x ':=' m 'in' k" := (bind m (fun x => k))
  (at level 10, x pattern, m at level 100, k at level 200) : py_scope.
Notation "'letr' x ':=' m 'in' k" := (rbind m (fun x => k))
  (at level 10, x pattern, m at level 100, k at level 200) : py_scope.
Open Scope py_scope.

(** [job_statuses[job_id][key] = v]: a [KeyError] when the id is absent. *)
Definition update_job (job_id : string) (f : Job -> Job) : M unit := fun st =>
  match job_statuses st !! job_id with
  | Some j => (Ok tt, set_job_statuses (insert job_id (f j)) st)
  | None => (Raise (KeyError job_id), st)
  end.

Definition with_status (s : string) (j : Job) : Job :=
  {| status := s; images_scraped := images_scraped j;
     total_images := total_images j; folder_path := folder_path j |}.

Definition with_images_scraped (n : Z) (j : Job) : Job :=
  {| status := status j; images_scraped := n;
     total_images := total_images j; folder_path := folder_path j |}.

(** ** Browser session (lines 54-79) *)

(** [create_driver]: the new session gets the next free handle. *)
Definition create_driver (w : World) : M nat :=
  try_except
    (let* _ := lift (webdriver_Chrome w) in
     fun st => (Ok (length (drivers st)), set_drivers (fun d => d ++ [true]) st))
    (fun e => raise (HTTPException 500 "Failed to initialize web driver")).

(** [for i in range(scroll_limit)] of [scroll_down]; [n] iterations remain. *)
Fixpoint scroll_loop (w : World) (i n : nat) (last_height : Z) : result unit :=
  match n with
  | 0 => Ok tt
  | S n' =>
      letr _ := scroll_to w i in
      letr new_height := scroll_height w (S i) in
      if (new_height =? last_height)%Z then Ok tt
      else scroll_loop w (S i) n' new_height
  end.

Definition scroll_down (w : World) (scroll_limit : nat) : result unit :=
  rtry
    (letr last_height := scroll_height w 0 in
     scroll_loop w 0 scroll_limit last_height)
    (fun e => Raise (HTTPException 500 "Failed to scroll page")).

(** [driver.quit()] *)
Definition quit (w : World) (driver : nat) : M unit :=
  let* _ := lift (driver_quit w) in
  fun st => (Ok tt, set_drivers (<[driver := false]>) st).

(** ** Image extractor (lines 81-95) *)

(** [int(a or 0)] for an attribute value [a]. *)
Definition int_or_0 (w : World) (a : option string) : result Z :=
  match a with
  | Some s => if truthy a then int w s else Ok 0%Z
  | None => Ok 0%Z
  end.

(** The body of [for img in images], on the accumulator [image_urls]. *)
Definition scrape_img (w : World) (img : Img) (image_urls : list string)
  : result (list string) :=
  match py_or (src img) (data_src img) with
  | Some image_url =>
      if negb (String.eqb image_url "") && negb (contains "data:image/gif" image_url) then
        letr width := int_or_0 w (width img) in
        letr height := int_or_0 w (height img) in
        if (100 <=? width)%Z && (100 <=? height)%Z
        then Ok (image_urls ++ [image_url])
        else Ok image_urls
      else Ok image_urls
  | None => Ok image_urls
  end.

Fixpoint scrape_loop (w : World) (images : list Img) (image_urls : list string)
  : result (list string) :=
  match images with
  | [] => Ok image_urls
  | img :: rest =>
      letr image_urls' := scrape_img w img image_urls in
      scrape_loop w rest image_urls'
  end.

Definition scrape_all_images (w : World) : result (list string) :=
  rtry
    (letr images := find_elements w in
     scrape_loop w images [])
    (fun e => Raise (HTTPException 500 "Failed to scrape images")).

(** ** Image fetcher (lines 97-118) *)

(** [with open(file_path, 'wb') as f: f.write(data)] *)
Definition write_file (w : World) (file_path : string) (data : bytes) : M unit :=
  let* _ := lift (open_wb w file_path) in
  fun st => (Ok tt, set_files (insert file_path data) st).

(** [requests.get(image_url, timeout=10)]; the call is counted whether it
    returns or raises. *)
Definition http_get (w : World) (image_url : string) : M Response := fun st =>
  (requests_get w (gets st) image_url, set_gets S st).

(** [for attempt in range(retry_count)] with [attempts] iterations left. *)
Fixpoint fetch_attempts (w : World) (image_url file_path : string) (attempts : nat)
  : M unit :=
  match attempts with
  | 0 => ret tt
  | S n =>
      let* response := http_get w image_url in
      if (status_code response =? 200)%Z
      then write_file w file_path (content response)
      else fetch_attempts w image_url file_path n
  end.

Definition save_image (w : World) (image_url folder_path file_name : string)
    (retry_count : nat) : M unit :=
  try_except
    (let file_path := os_path_join folder_path (file_name +:+ ".jpg") in
     if startswith "data:image/" image_url then
       match split_once "," image_url with
       | Some (header, encoded) =>
           let* image_data := lift (b64decode w encoded) in
           write_file w file_path image_data
       | None => raise (Exception "not enough values to unpack (expected 2, got 1)")
       end
     else fetch_attempts w image_url file_path retry_count)
    (fun e => raise (HTTPException 500 ("Failed to save image: " +:+ str_exn w e))).

(** ** The background pipeline (lines 120-142) *)

(** Lines 122-128: open the session, load the results page, scroll, extract
    and truncate. *)
Definition prelude (w : World) (search_term : string) (num_images : option Z)
  : M (nat * list string) :=
  let* driver := create_driver w in
  let* _ := lift (driver_get w
              ("https://www.google.com/search?q=" +:+ search_term +:+ "&tbm=isch")) in
  let* _ := lift (scroll_down w 5) in
  let* image_urls := lift (scrape_all_images w) in
  ret (driver, slice_to num_images image_urls).

(** Lines 131-134: one iteration of the [for] loop. *)
Definition loop_body (w : World) (job_id search_term folder_path : string)
    (index : Z) (image_url : string) : M unit := fun st =>
  match job_statuses st !! job_id with
  | Some _ =>
      (let file_name := search_term +:+ "_" +:+ pretty index in
       let* _ := save_image w image_url folder_path file_name 3 in
       update_job job_id (with_images_scraped index)) st
  | None => (Ok tt, st)
  end.

(** Line 130: [for index, image_url in enumerate(image_urls, start=1)]. *)
Fixpoint for_images (w : World) (job_id search_term folder_path : string)
    (index : Z) (image_urls : list string) : M unit :=
  match image_urls with
  | [] => ret tt
  | image_url :: rest =>
      let* _ := loop_body w job_id search_term folder_path index image_url in
      for_images w job_id search_term folder_path (index + 1) rest
  end.

(** Lines 136-137. *)
Definition finish (w : World) (job_id : string) (driver : nat) : M unit :=
  let* _ := update_job job_id (with_status "completed") in
  quit w driver.

(** Lines 139-142: the [except Exception] handler. *)
Definition on_error (w : World) (job_id : string) (e : exn) : M unit :=
  let* _ := update_job job_id (with_status "failed") in
  raise (HTTPException 500 ("Scraping task failed: " +:+ str_exn w e)).

Definition scrape_images_task (w : World) (job_id search_term : string)
    (num_images : option Z) (folder_path : string) : M unit :=
  try_except
    (let* (driver, image_urls) := prelude w search_term num_images in
     let* _ := for_images w job_id search_term folder_path 1 image_urls in
     finish w job_id driver)
    (on_error w job_id).

(** ** Request handlers (lines 144-205) *)

(** A background task as the scheduler holds it: not yet started, at the top
    of the loop with the candidates still to visit, or finished. *)
Inductive Task :=
| TStart (job_id search_term : string) (num_images : option Z) (folder_path : string)
| TLoop (job_id search_term folder_path : string) (driver : nat)
        (index : Z) (image_urls : list string)
| TDone (job_id : string) (r : result unit).

Definition task_job (t : Task) : string :=
  match t with
  | TStart job_id _ _ _ => job_id
  | TLoop job_id _ _ _ _ _ => job_id
  | TDone job_id _ => job_id
  end.

(** [start_scrape]: the response, and the task handed to [background_tasks]. *)
Definition start_scrape (w : World) (request : ScrapeRequest.t)
  : M (ScrapeResponse.t * Task) :=
  try_except
    (let job_id := uuid4 w in
     let folder_name :=
       match ScrapeRequest.folder_name request with
       | Some n => if String.eqb n "" then "scraped_images_" +:+ now w else n
       | None => "scraped_images_" +:+ now w
       end in
     let folder_path := os_path_join "GoogleSearchImages" folder_name in
     let* _ := lift (makedirs w folder_path) in
     let* _ := (fun st =>
       (Ok tt, set_job_statuses (insert job_id
          {| status := "pending"; images_scraped := 0;
             total_images := ScrapeRequest.num_images request;
             folder_path := folder_path |}) st)) in
     ret ({| ScrapeResponse.job_id := job_id;
             ScrapeResponse.status := "pending";
             ScrapeResponse.folder_path := folder_path |},
          TStart job_id (ScrapeRequest.search_term request)
                 (ScrapeRequest.num_images request) folder_path))
    (fun e => raise (HTTPException 500 ("Failed to start scraping: " +:+ str_exn w e))).

(** [get_job_status].  [JobStatus] declares [total_images: int]: building it
    from a record whose ["total_images"] is [None] raises pydantic's
    [ValidationError], which the handler does not catch. *)
Definition get_job_status (job_id : string) : M JobStatus.t := fun st =>
  match job_statuses st !! job_id with
  | None => (Raise (HTTPException 404 "Job not found"), st)
  | Some j =>
      match total_images j with
      | Some n =>
          (Ok {| JobStatus.job_id := job_id;
                 JobStatus.status := status j;
                 JobStatus.images_scraped := images_scraped j;
                 JobStatus.total_images := n;
                 JobStatus.folder_path := folder_path j |}, st)
      | None => (Raise (ValidationError "JobStatus" "total_images"), st)
      end
  end.

(** [cancel_job]; the returned string is the value of ["message"]. *)
Definition cancel_job (job_id : string) : M string := fun st =>
  match job_statuses st !! job_id with
  | None => (Raise (HTTPException 404 "Job not found"), st)
  | Some j =>
      if String.eqb (status j) "pending" then
        (let* _ := update_job job_id (with_status "cancelled") in
         ret "Job cancelled successfully") st
      else (Raise (HTTPException 400 "Job cannot be cancelled in its current state"), st)
  end.

(** ** The pipeline as a task the scheduler advances

    One step runs the code up to the next point where the job table may be
    observed: the part before the loop, one loop iteration, or the part
    after the loop.  An exception in any of them runs the handler. *)

Definition after_raise (w : World) (job_id : string) (e : exn) (st : State)
  : Task * State :=
  let '(r, st') := on_error w job_id e st in (TDone job_id r, st').

Definition task_step (w : World) (t : Task) (st : State) : Task * State :=
  match t with
  | TStart job_id search_term num_images folder_path =>
      match prelude w search_term num_images st with
      | (Ok (driver, image_urls), st') =>
          (TLoop job_id search_term folder_path driver 1 image_urls, st')
      | (Raise e, st') => after_raise w job_id e st'
      end
  | TLoop job_id search_term folder_path driver index (image_url :: rest) =>
      match loop_body w job_id search_term folder_path index image_url st with
      | (Ok _, st') =>
          (TLoop job_id search_term folder_path driver (index + 1) rest, st')
      | (Raise e, st') => after_raise w job_id e st'
      end
  | TLoop job_id _ _ driver _ [] =>
      match finish w job_id driver st with
      | (Ok _, st') => (TDone job_id (Ok tt), st')
      | (Raise e, st') => after_raise w job_id e st'
      end
  | TDone _ _ => (t, st)
  end.

Fixpoint run_task (w : World) (fuel : nat) (t : Task) (st : State) : Task * State :=
  match fuel with
  | 0 => (t, st)
  | S n => let '(t', st') := task_step w t st in run_task w n t' st'
  end.

(** ** The whole service: the job table and the scheduled tasks

    Requests and task steps may interleave in any order.  The event loop of
    a deployment may allow fewer interleavings (a task that never yields runs
    to its end once started); every state it can show is among the ones
    reached here. *)

Record Sys := {
  state : State;
  tasks : list Task;
}.

Inductive Event :=
| Create (w : World) (request : ScrapeRequest.t)
| Poll (job_id : string)
| Cancel (job_id : string)
| Run (w : World) (n : nat).

Definition sys_step (ev : Event) (s : Sys) : Sys :=
  match ev with
  | Create w request =>
      match start_scrape w request (state s) with
      | (Ok (_, t), st') => {| state := st'; tasks := tasks s ++ [t] |}
      | (Raise _, st') => {| state := st'; tasks := tasks s |}
      end
  | Poll job_id =>
      {| state := snd (get_job_status job_id (state s)); tasks := tasks s |}
  | Cancel job_id =>
      {| state := snd (cancel_job job_id (state s)); tasks := tasks s |}
  | Run w n =>
      match tasks s !! n with
      | Some t =>
          let '(t', st') := task_step w t (state s) in
          {| state := st'; tasks := <[n := t']> (tasks s) |}
      | None => s
      end
  end.

(** [uuid4] returns an identifier not in use. *)
Definition admissible (ev : Event) (s : Sys) : Prop :=
  match ev with
  | Create w _ => job_statuses (state s) !! uuid4 w = None
  | _ => True
  end.

Inductive reachable : Sys -> Prop :=
| reach_init st :
    job_statuses st = ∅ -> reachable {| state := st; tasks := [] |}
| reach_step s ev :
    reachable s -> admissible ev s -> reachable (sys_step ev s).

Definition run_events (evs : list Event) (s : Sys) : Sys :=
  foldl (fun s ev => sys_step ev s) s evs.

(** ** A sample world for the examples *)

Definition digit_value (a : ascii) : option Z :=
  let n := Z.of_N (N_of_ascii a) in
  if (48 <=? n)%Z && (n <=? 57)%Z then Some (n - 48)%Z else None.

Fixpoint digits_value (acc : Z) (s : string) : option Z :=
  match s with
  | EmptyString => Some acc
  | String a s' =>
      match digit_value a with
      | Some d => digits_value (10 * acc + d) s'
      | None => None
      end
  end.

(** An instance of the [int] oracle: a non-empty string of ASCII digits has
    its decimal value, every other string of the examples is rejected as
    [int] does with a [ValueError]. *)
Definition sample_int (s : string) : result Z :=
  match s with
  | EmptyString => Raise (Exception "invalid literal for int() with base 10: ''")
  | _ =>
      match digits_value 0 s with
      | Some z => Ok z
      | None => Raise (Exception ("invalid literal for int() with base 10: '" +:+ s +:+ "'"))
      end
  end.

(** An instance of the [b64decode] oracle on the payloads of the examples:
    ["QUJD"] decodes to the bytes of "ABC"; ["QUJ"] lacks its padding. *)
Definition sample_b64decode (s : string) : result bytes :=
  if String.eqb s "QUJD" then Ok [Byte.x41; Byte.x42; Byte.x43]
  else Raise (Exception "Incorrect padding").

(** An instance of the [repr] oracle, right for the ids of the examples
    (letters, digits and hyphens): the string between single quotes. *)
Definition sample_repr (s : string) : string := "'" +:+ s +:+ "'".

(** An instance of the [validation_text] oracle; no example depends on the
    text. *)
Definition sample_validation_text (model field : string) : string :=
  "1 validation error for " +:+ model.

(** A world where the browser, the file system and the library calls work;
    the page elements and the HTTP answers are the parameters. *)
Definition sample_world (elements : list Img)
    (http : nat -> string -> result Response) : World :=
  {| uuid4 := "job-1";
     now := "20240101_120000";
     makedirs := fun _ => Ok tt;
     webdriver_Chrome := Ok tt;
     driver_get := fun _ => Ok tt;
     scroll_to := fun _ => Ok tt;
     scroll_height := fun _ => Ok 1080%Z;
     find_elements := Ok elements;
     int := sample_int;
     b64decode := sample_b64decode;
     requests_get := http;
     open_wb := fun _ => Ok tt;
     driver_quit := Ok tt;
     repr := sample_repr;
     validation_text := sample_validation_text |}.

Definition http_ok : nat -> string -> result Response :=
  fun _ _ => Ok {| status_code := 200; content := [Byte.xff; Byte.xd8] |}.

Definition http_404 : nat -> string -> result Response :=
  fun _ _ => Ok {| status_code := 404; content := [] |}.

Definition img_of (url w h : string) : Img :=
  {| src := Some url; data_src := None; width := Some w; height := Some h |}.

Definition cats_request (n : Z) : ScrapeRequest.t :=
  {| ScrapeRequest.search_term := "cats";
     ScrapeRequest.num_images := Some n;
     ScrapeRequest.folder_name := Some "out" |}.

Definition lookup_job (job_id : string) (st : State) : option Job :=
  job_statuses st !! job_id.

(** ** The extractor as the specification words it

    These follow the specification's description of the Image Extractor and
    are compared with [scrape_all_images] below.  The specification's test
    for a placeholder ([is_animated_placeholder]) and the test the code
    makes ([has_gif_marker]) are kept apart: [claimed_urls] is the output
    the specification describes, [extractor_spec] the same with the code's
    test in its place. *)

(** A source URL, preferring the eagerly loaded attribute and falling back
    to the lazy-load attribute; an empty attribute resolves to nothing. *)
Definition resolved_url (img : Img) : option string :=
  let lazy_url :=
    match data_src img with
    | Some s => if String.eqb s "" then None else Some s
    | None => None
    end in
  match src img with
  | Some s => if String.eqb s "" then lazy_url else Some s
  | None => lazy_url
  end.

Definition lower_ascii (a : ascii) : ascii :=
  let n := N_of_ascii a in
  if (65 <=? n)%N && (n <=? 90)%N then ascii_of_N (n + 32) else a.

(** [s] with its ASCII letters in lower case. *)
Fixpoint lower (s : string) : string :=
  match s with
  | EmptyString => EmptyString
  | String a s' => String (lower_ascii a) (lower s')
  end.

(** The URL denotes the inline animated placeholder format: it is an inline
    ([data:]) URL whose media type is [image/gif], in any letter case. *)
Definition is_animated_placeholder (url : string) : bool :=
  startswith "data:image/gif" (lower url).

(** The test of line 87: the text "data:image/gif" occurs somewhere in the
    URL, in exactly this case. *)
Definition has_gif_marker (url : string) : bool :=
  contains "data:image/gif" url.

(** A reported dimension, an unset one counting as 0. *)
Definition dimension (w : World) (a : option string) : Z :=
  match a with
  | Some s =>
      if String.eqb s "" then 0%Z
      else match int w s with Ok z => z | Raise _ => 0%Z end
  | None => 0%Z
  end.

Definition min_dimension : Z := 100.

(** The element has a source URL that passes the code's test. *)
Definition has_candidate_url (img : Img) : Prop :=
  exists url, resolved_url img = Some url /\ has_gif_marker url = false.

(** What the specification keeps of an element: its resolved URL, unless
    that denotes the placeholder format or a dimension is below the
    minimum. *)
Definition claimed_candidate (w : World) (img : Img) : option string :=
  match resolved_url img with
  | Some url =>
      if negb (is_animated_placeholder url)
         && (min_dimension <=? dimension w (width img))%Z
         && (min_dimension <=? dimension w (height img))%Z
      then Some url else None
  | None => None
  end.

(** The output the specification describes: the URLs of the kept elements,
    in DOM order. *)
Definition claimed_urls (w : World) (images : list Img) : list string :=
  omap (claimed_candidate w) images.

(** The same with the code's test for the specification's. *)
Definition candidate (w : World) (img : Img) : option string :=
  match resolved_url img with
  | Some url =>
      if negb (has_gif_marker url)
         && (min_dimension <=? dimension w (width img))%Z
         && (min_dimension <=? dimension w (height img))%Z
      then Some url else None
  | None => None
  end.

Definition extractor_spec (w : World) (images : list Img) : list string :=
  omap (candidate w) images.

(** The attribute is present, non-empty and rejected by [int]. *)
Definition unparseable (w : World) (a : option string) : Prop :=
  exists s, a = Some s /\ s <> "" /\ is_ok (int w s) = false.

(** The attribute is unset, empty, or accepted by [int]. *)
Definition readable (w : World) (a : option string) : Prop :=
  is_ok (int_or_0 w a) = true.

(** ** Sample pages and states *)

(** Three elements: a large remote image, one that is too narrow, and a large
    inline PNG. *)
Definition page_cats : list Img :=
  [ img_of "http://img.example/1.jpg" "120" "120";
    img_of "http://img.example/2.jpg" "50" "120";
    img_of "data:image/png;base64,QUJD" "200" "200" ].

(** One element with a usable URL whose width is not a number. *)
Definition page_bad_width : list Img :=
  [ img_of "http://img.example/1.jpg" "abc" "120" ].


(** The table after [POST /scrape {searchTerm: "cats", numImages: n,
    folderName: "out"}] on an empty service. *)
Definition st_created (n : Z) : State :=
  snd (start_scrape (sample_world [] http_ok) (cats_request n) init_state).

(** The same job after its pipeline has run on [page_cats]. *)
Definition st_finished : State :=
  snd (scrape_images_task (sample_world page_cats http_ok)
         "job-1" "cats" (Some 3%Z) "GoogleSearchImages/out" (st_created 3)).

(** The network refuses the first connection attempt. *)
Definition http_timeout : nat -> string -> result Response :=
  fun _ _ => Raise (Exception "Read timed out. (read timeout=10)").



(** A page with a remote image whose query string mentions the GIF marker,
    and an inline GIF whose media type is written in upper case. *)
Definition page_gif_marker : list Img :=
  [ img_of "http://x.example/?u=data:image/gif" "200" "200";
    img_of "data:image/GIF;base64,QUJD" "200" "200" ].

(** A request whose body carries ["num_images": null]. *)
Definition null_count_request : ScrapeRequest.t :=
  {| ScrapeRequest.search_term := "cats";
     ScrapeRequest.num_images := None;
     ScrapeRequest.folder_name := Some "out" |}.

(** The job of that request, created and run on [page_cats]. *)
Definition st_null_count_run : State :=
  let w := sample_world page_cats http_ok in
  snd (scrape_images_task w "job-1" "cats" None "GoogleSearchImages/out"
         (snd (start_scrape w null_count_request init_state))).

(** ** Predicates used in the statements *)

(** The operation does not touch the job table. *)
Definition keeps_jobs {A} (m : M A) : Prop :=
  forall st, job_statuses (snd (m st)) = job_statuses st.

(** [n] more GETs have been issued. *)
Definition add_gets (n : nat) (st : State) : State := set_gets (fun g => g + n) st.


(** The GET issued after [at_get] earlier ones returns a response whose
    status code is not 200. *)
Definition not_success (w : World) (image_url : string) (at_get : nat) : Prop :=
  exists r, requests_get w at_get image_url = Ok r /\ status_code r <> 200%Z.

(** The status strings the module writes. *)
Definition written_statuses : list string :=
  ["pending"; "cancelled"; "completed"; "failed"].

(** A record is well formed: its status is one the module writes, and its
    progress does not exceed a non-negative requested count. *)
Definition job_ok (j : Job) : Prop :=
  status j ∈ written_statuses /\
  (forall n, total_images j = Some n -> (0 <= n)%Z -> (images_scraped j <= n)%Z).

(** A scheduled task agrees with the table: its job is present with the
    requested count the task was created with, and the candidates it still
    has to visit fit under that count. *)
Definition task_ok (tbl : gmap string Job) (t : Task) : Prop :=
  match t with
  | TStart job_id _ num_images _ =>
      exists j, tbl !! job_id = Some j /\ total_images j = num_images
  | TLoop job_id _ _ _ index image_urls =>
      exists j, tbl !! job_id = Some j /\ (1 <= index)%Z /\
        (forall n, total_images j = Some n -> (0 <= n)%Z ->
           (index - 1 + Z.of_nat (length image_urls) <= n)%Z)
  | TDone _ _ => True
  end.

(** Every job of [tbl] is still in [tbl'] with the same requested count. *)
Definition extends (tbl tbl' : gmap string Job) : Prop :=
  forall job_id j, tbl !! job_id = Some j ->
    exists j', tbl' !! job_id = Some j' /\ total_images j' = total_images j.

Definition sys_inv (s : Sys) : Prop :=
  map_Forall (fun _ j => job_ok j) (job_statuses (state s))
  /\ Forall (task_ok (job_statuses (state s))) (tasks s).

(** Every event of the sequence is admissible where it happens. *)
Fixpoint admissible_all (evs : list Event) (s : Sys) : Prop :=
  match evs with
  | [] => True
  | ev :: evs' => admissible ev s /\ admissible_all evs' (sys_step ev s)
  end.

(** What a client polling [GET /status/{job_id}] sees. *)
Definition polled (job_id : string) (st : State) : option JobStatus.t :=
  match fst (get_job_status job_id st) with
  | Ok js => Some js
  | Raise _ => None
  end.

Definition init_sys : Sys := {| state := init_state; tasks := [] |}.

(** The service after one job for three cat pictures was created and its
    task advanced twice on [page_cats]: the page is loaded and the first
    candidate fetched. *)
Definition sys_first_fetch : Sys :=
  let w := sample_world page_cats http_ok in
  run_events [Create w (cats_request 3); Run w 0; Run w 0] init_sys.

(** The service after a job asking for -1 pictures was created. *)
Definition sys_negative : Sys :=
  sys_step (Create (sample_world page_cats http_ok) (cats_request (-1))) init_sys.

(** The state in which the task of [sys_first_fetch] enters its loop. *)
Definition st_loop_entry : State :=
  let w := sample_world page_cats http_ok in
  state (run_events [Create w (cats_request 3); Run w 0] init_sys).

(** A page whose first candidate is an inline PNG with a truncated base64
    payload, followed by a remote image. *)
Definition page_malformed : list Img :=
  [ img_of "data:image/png;base64,QUJ" "200" "200";
    img_of "http://img.example/2.jpg" "120" "120" ].

(** A job for [n] pictures is created and cancelled while still pending. *)
Definition st_cancelled (n : Z) : State :=
  snd (cancel_job "job-1" (st_created n)).

(** ... and then its background task runs on [page_cats]. *)
Definition st_cancelled_then_run (n : Z) : State :=
  snd (scrape_images_task (sample_world page_cats http_ok)
         "job-1" "cats" (Some n) "GoogleSearchImages/out" (st_cancelled n)).

(** The pipeline of a fresh job for three pictures on [page_malformed]. *)
Definition run_malformed : result unit * State :=
  scrape_images_task (sample_world page_malformed http_ok)
    "job-1" "cats" (Some 3%Z) "GoogleSearchImages/out" (st_created 3).

(** ** Footprints: how an operation may change the state *)

(** Every run of [m] relates the state before to the state after by [R],
    whether it returns or raises. *)
Definition preserves {A} (R : State -> State -> Prop) (m : M A) : Prop :=
  forall st, R st (snd (m st)).

Definition same_drivers (st st' : State) : Prop := drivers st' = drivers st.

Definition same_files (st st' : State) : Prop := files st' = files st.

Definition same_gets (st st' : State) : Prop := gets st' = gets st.

(** Only paths satisfying [P] may have been written. *)
Definition files_outside (P : string -> Prop) (st st' : State) : Prop :=
  forall p, ~ P p -> files st' !! p = files st !! p.

(** Only the record of [job_id] may have changed. *)
Definition jobs_only (job_id : string) (st st' : State) : Prop :=
  forall other, other <> job_id -> job_statuses st' !! other = job_statuses st !! other.

(** At most [n] GETs were issued. *)
Definition gets_within {A} (n : nat) (m : M A) : Prop :=
  forall st, gets st <= gets (snd (m st)) <= gets st + n.

(** The path [save_image] writes to. *)
Definition image_path (folder_path file_name : string) : string :=
  os_path_join folder_path (file_name +:+ ".jpg").

(** Where a heights oracle shows the page has stopped growing. *)
Definition stable_at (h : nat -> Z) (b : nat) : Prop :=
  0 < b /\ h b = h (b - 1).

(** The width and height the loop body read for an element. *)
Definition large_enough (w : World) (img : Img) : Prop :=
  exists wd hd, int_or_0 w (width img) = Ok wd /\ int_or_0 w (height img) = Ok hd
    /\ (100 <= wd)%Z /\ (100 <= hd)%Z.

(** A world like [sample_world] on an empty page, with the given answers
    to the scroll and height scripts. *)
Definition scroll_world (to : nat -> result unit) (heights : nat -> result Z) : World :=
  {| uuid4 := "job-1";
     now := "20240101_120000";
     makedirs := fun _ => Ok tt;
     webdriver_Chrome := Ok tt;
     driver_get := fun _ => Ok tt;
     scroll_to := to;
     scroll_height := heights;
     find_elements := Ok [];
     int := sample_int;
     b64decode := sample_b64decode;
     requests_get := http_ok;
     open_wb := fun _ => Ok tt;
     driver_quit := Ok tt;
     repr := sample_repr;
     validation_text := sample_validation_text |}.

(** The page grows twice and then keeps its height; the browser would fail
    at the fourth scroll. *)
Definition growing_page_world : World :=
  scroll_world
    (fun i => if i <? 3 then Ok tt else Raise (Exception "disconnected"))
    (fun k => if k <? 2 then Ok (1000 * Z.of_nat k)%Z else Ok 2000%Z).

(** The page grows with every scroll; the browser fails at the second one. *)
Definition lost_browser_world : World :=
  scroll_world
    (fun i => if i <? 1 then Ok tt else Raise (Exception "disconnected"))
    (fun k => Ok (1000 * Z.of_nat k)%Z).

(** Two 503 answers, then a 200 with a two-byte body. *)
Definition http_503_then_ok : nat -> string -> result Response :=
  fun n _ =>
    if n <? 2 then Ok {| status_code := 503; content := [] |}
    else Ok {| status_code := 200; content := [Byte.xff; Byte.xd8] |}.

(** ** How records and runs are described in the further properties *)

(** A record keeps its requested count and its folder, and does not go back
    to "pending" once it has left it. *)
Definition job_evolves (j j' : Job) : Prop :=
  total_images j' = total_images j
  /\ folder_path j' = folder_path j
  /\ (status j <> "pending" -> status j' <> "pending").

(** No job is dropped and each one evolves as above. *)
Definition jobs_evolve (st st' : State) : Prop :=
  forall job_id j, job_statuses st !! job_id = Some j ->
    exists j', job_statuses st' !! job_id = Some j' /\ job_evolves j j'.

(** The candidates a pipeline for [num_images] pictures visits in world [w]:
    the extractor's URLs, truncated. *)
Definition candidates (w : World) (num_images : option Z) : list string :=
  match scrape_all_images w with
  | Ok image_urls => slice_to num_images image_urls
  | Raise _ => []
  end.

(** The file the pipeline writes for the candidate of ordinal [i]. *)
Definition output_path (folder_path search_term : string) (i : Z) : string :=
  image_path folder_path (search_term +:+ "_" +:+ pretty i).

(** [p] is the output file of an ordinal in [[lo, hi)]. *)
Definition is_output (folder_path search_term : string) (lo hi : Z) (p : string) : Prop :=
  exists i, (lo <= i < hi)%Z /\ p = output_path folder_path search_term i.

(** The folder [start_scrape] resolves for a request: the explicit name when
    it is not empty, else a name derived from the clock, under
    [GoogleSearchImages] unless the name is an absolute path. *)
Definition resolved_folder (w : World) (request : ScrapeRequest.t) : string :=
  match ScrapeRequest.folder_name request with
  | Some n =>
      if String.eqb n "" then "GoogleSearchImages/scraped_images_" +:+ now w
      else if startswith "/" n then n
      else "GoogleSearchImages/" +:+ n
  | None => "GoogleSearchImages/scraped_images_" +:+ now w
  end.

(** A request whose folder name is an absolute path. *)
Definition absolute_request : ScrapeRequest.t :=
  {| ScrapeRequest.search_term := "cats";
     ScrapeRequest.num_images := Some 3%Z;
     ScrapeRequest.folder_name := Some "/tmp/elsewhere" |}.

(** The disk refuses to create folders. *)
Definition read_only_world : World :=
  {| uuid4 := "job-1";
     now := "20240101_120000";
     makedirs := fun _ => Raise (Exception "[Errno 30] Read-only file system");
     webdriver_Chrome := Ok tt;
     driver_get := fun _ => Ok tt;
     scroll_to := fun _ => Ok tt;
     scroll_height := fun _ => Ok 1080%Z;
     find_elements := Ok [];
     int := sample_int;
     b64decode := sample_b64decode;
     requests_get := http_ok;
     open_wb := fun _ => Ok tt;
     driver_quit := Ok tt;
     repr := sample_repr;
     validation_text := sample_validation_text |}.

(** The response of a [start_scrape] call that returned. *)
Definition response_of (r : result (ScrapeResponse.t * Task) * State)
  : option ScrapeResponse.t :=
  match fst r with
  | Ok (resp, _) => Some resp
  | Raise _ => None
  end.

(** The progress a task has made, against its job's record: nothing before
    the loop, less than the next ordinal inside it. *)
Definition progress_ok (t : Task) (j : Job) : Prop :=
  match t with
  | TStart _ _ _ _ => images_scraped j = 0%Z
  | TLoop _ _ _ _ index _ => (0 <= images_scraped j < index)%Z
  | TDone _ _ => True
  end.

(** Each task has its own job, present in the table, and its progress
    agrees with the record; no record shows negative progress. *)
Definition progress_inv (s : Sys) : Prop :=
  NoDup (task_job <$> tasks s)
  /\ (forall t, t ∈ tasks s ->
        exists j, job_statuses (state s) !! task_job t = Some j /\ progress_ok t j)
  /\ (forall job_id j, job_statuses (state s) !! job_id = Some j ->
        (0 <= images_scraped j)%Z).

(** No job is dropped and no job's progress goes down. *)
Definition progress_le (st st' : State) : Prop :=
  forall job_id j, job_statuses st !! job_id = Some j ->
    exists j', job_statuses st' !! job_id = Some j'
      /\ (images_scraped j <= images_scraped j')%Z.

(** The world of a second job, whose remote images all answer 404. *)
Definition world_job2 : World :=
  let w1 := sample_world page_cats http_ok in
  {| uuid4 := "job-2";
     now := now w1; makedirs := makedirs w1;
     webdriver_Chrome := webdriver_Chrome w1; driver_get := driver_get w1;
     scroll_to := scroll_to w1; scroll_height := scroll_height w1;
     find_elements := find_elements w1; int := int w1;
     b64decode := b64decode w1; requests_get := http_404;
     open_wb := open_wb w1; driver_quit := driver_quit w1;
     repr := repr w1; validation_text := validation_text w1 |}.

(** The service with one job, for three pictures, just created. *)
Definition sys_one_job : Sys :=
  sys_step (Create (sample_world page_cats http_ok) (cats_request 3)) init_sys.

(** What follows: the first task starts, a second job is created and
    cancelled, the first is polled, and both tasks advance in turn until
    they are done. *)
Definition later_events : list Event :=
  let w1 := sample_world page_cats http_ok in
  [Run w1 0; Create world_job2 (cats_request 1); Run w1 0; Cancel "job-2";
   Poll "job-1"; Run world_job2 1; Run w1 0; Run world_job2 1; Run w1 0;
   Run world_job2 1].

(** An inline candidate is well formed: it has a comma and the decoder
    accepts the text after the first one.  Remote candidates qualify as
    they are. *)
Definition inline_ok (w : World) (image_url : string) : Prop :=
  startswith "data:image/" image_url = true ->
  exists header encoded,
    split_once "," image_url = Some (header, encoded)
    /\ is_ok (b64decode w encoded) = true.

(** * Properties *)

(** ** Extractor *)

Section Extractor.
Variable w : World.

Lemma py_or_resolved img : py_or (src img) (data_src img) = None -> resolved_url img = None.
Proof.
  unfold py_or, resolved_url, truthy.
  destruct (src img) as [s|]; destruct (data_src img) as [d|]; simpl;
    try destruct (String.eqb s ""); try destruct (String.eqb d ""); simpl; congruence.
Qed.

Lemma py_or_resolved_some img u :
  py_or (src img) (data_src img) = Some u ->
  resolved_url img = if String.eqb u "" then None else Some u.
Proof.
  unfold py_or, resolved_url, truthy.
  destruct (src img) as [s|]; destruct (data_src img) as [d|]; simpl;
    try destruct (String.eqb s "") eqn:Es; simpl; intros [= <-];
    rewrite ?Es; try reflexivity;
    destruct (String.eqb d ""); reflexivity.
Qed.

Lemma int_or_0_dimension a z : int_or_0 w a = Ok z -> dimension w a = z.
Proof.
  unfold int_or_0, dimension, truthy. destruct a as [s|]; [|congruence].
  destruct (String.eqb s ""); simpl; [congruence|].
  destruct (int w s); congruence.
Qed.

Lemma unparseable_not_readable a : unparseable w a <-> ~ readable w a.
Proof.
  unfold unparseable, readable, int_or_0, truthy. split.
  - intros (s & -> & Hs & Hi). apply String.eqb_neq in Hs. rewrite Hs. simpl.
    rewrite Hi. discriminate.
  - destruct a as [s|]; [|intros []; reflexivity].
    destruct (String.eqb s "") eqn:Es; simpl; [intros []; reflexivity|].
    intros H. exists s. apply String.eqb_neq in Es.
    destruct (int w s); simpl in *; [contradiction H|]; auto.
Qed.

(** One element: when its dimensions can be read, the loop body appends
    exactly what the specification keeps. *)
Lemma scrape_img_spec img acc :
  (has_candidate_url img -> readable w (width img) /\ readable w (height img)) ->
  scrape_img w img acc = Ok (acc ++ from_option (fun u => [u]) [] (candidate w img)).
Proof.
  intros Hdims. unfold scrape_img, candidate.
  destruct (py_or (src img) (data_src img)) as [u|] eqn:Hor.
  - rewrite (py_or_resolved_some _ _ Hor).
    destruct (String.eqb u "") eqn:Eu; simpl; [by rewrite app_nil_r|].
    unfold has_gif_marker in *.
    destruct (contains "data:image/gif" u) eqn:Eg; simpl; [by rewrite app_nil_r|].
    destruct Hdims as [Hw Hh].
    { exists u. rewrite (py_or_resolved_some _ _ Hor), Eu. done. }
    unfold readable in *.
    destruct (int_or_0 w (width img)) as [zw|] eqn:Ew; [|discriminate].
    destruct (int_or_0 w (height img)) as [zh|] eqn:Eh; [|discriminate].
    simpl. rewrite (int_or_0_dimension _ _ Ew), (int_or_0_dimension _ _ Eh).
    unfold min_dimension.
    destruct ((100 <=? zw)%Z && (100 <=? zh)%Z); simpl; [done|by rewrite app_nil_r].
  - rewrite (py_or_resolved _ Hor). simpl. by rewrite app_nil_r.
Qed.

Lemma scrape_loop_spec images : forall acc,
  (forall img, img ∈ images -> has_candidate_url img ->
               readable w (width img) /\ readable w (height img)) ->
  scrape_loop w images acc = Ok (acc ++ extractor_spec w images).
Proof.
  induction images as [|img rest IH]; intros acc Hdims; simpl.
  - by rewrite app_nil_r.
  - rewrite scrape_img_spec by (apply Hdims; left).
    simpl. rewrite IH by (intros i Hi; apply Hdims; by right).
    f_equal. rewrite <- app_assoc. f_equal.
    unfold extractor_spec. simpl. destruct (candidate w img); done.
Qed.

(** One element that passes the URL test and has an unparseable dimension
    makes the loop body raise. *)
Lemma scrape_img_raises img acc :
  has_candidate_url img ->
  unparseable w (width img) \/ unparseable w (height img) ->
  is_ok (scrape_img w img acc) = false.
Proof.
  intros (u & Hu & Hg) Hbad. unfold scrape_img.
  destruct (py_or (src img) (data_src img)) as [u'|] eqn:Hor.
  - rewrite (py_or_resolved_some _ _ Hor) in Hu.
    destruct (String.eqb u' "") eqn:Eu; [discriminate|]. injection Hu as ->.
    unfold has_gif_marker in Hg. rewrite Hg. simpl.
    destruct (int_or_0 w (width img)) as [zw|] eqn:Ew; [|done].
    destruct (int_or_0 w (height img)) as [zh|] eqn:Eh; [|done].
    exfalso. destruct Hbad as [Hb|Hb]; apply unparseable_not_readable in Hb;
      apply Hb; unfold readable; by rewrite ?Ew, ?Eh.
  - rewrite (py_or_resolved _ Hor) in Hu. discriminate.
Qed.

Lemma scrape_loop_raises images : forall acc img,
  img ∈ images -> has_candidate_url img ->
  unparseable w (width img) \/ unparseable w (height img) ->
  is_ok (scrape_loop w images acc) = false.
Proof.
  induction images as [|i rest IH]; intros acc img Hin Hu Hbad.
  - by apply elem_of_nil in Hin.
  - simpl. apply elem_of_cons in Hin as [<-|Hin].
    + pose proof (scrape_img_raises img acc Hu Hbad) as Hr.
      destruct (scrape_img w img acc); [discriminate|done].
    + destruct (scrape_img w i acc); [|done]. simpl. by eapply IH.
Qed.
End Extractor.

(** ** What each operation leaves alone *)

Lemma keeps_jobs_ret {A} (a : A) : keeps_jobs (ret a).
Proof. done. Qed.

Lemma keeps_jobs_raise {A} e : keeps_jobs (@raise A e).
Proof. done. Qed.

Lemma keeps_jobs_lift {A} (r : result A) : keeps_jobs (lift r).
Proof. done. Qed.

Lemma keeps_jobs_bind {A B} (m : M A) (k : A -> M B) :
  keeps_jobs m -> (forall a, keeps_jobs (k a)) -> keeps_jobs (bind m k).
Proof.
  intros Hm Hk st. unfold bind. specialize (Hm st).
  destruct (m st) as [[a|e] st']; simpl in *; [|done].
  by rewrite Hk.
Qed.

Lemma keeps_jobs_try_except {A} (m : M A) h :
  keeps_jobs m -> (forall e, keeps_jobs (h e)) -> keeps_jobs (try_except m h).
Proof.
  intros Hm Hh st. unfold try_except. specialize (Hm st).
  destruct (m st) as [[a|e] st']; simpl in *; [done|].
  by rewrite Hh.
Qed.

Create HintDb frame discriminated.
#[local] Hint Resolve keeps_jobs_ret keeps_jobs_raise keeps_jobs_lift
  keeps_jobs_bind keeps_jobs_try_except : frame.

Lemma keeps_jobs_create_driver w : keeps_jobs (create_driver w).
Proof.
  unfold create_driver. apply keeps_jobs_try_except; [|auto with frame].
  apply keeps_jobs_bind; [auto with frame|]. by intros _ st.
Qed.

Lemma keeps_jobs_quit w d : keeps_jobs (quit w d).
Proof. unfold quit. apply keeps_jobs_bind; [auto with frame|]. by intros _ st. Qed.

Lemma keeps_jobs_write_file w p data : keeps_jobs (write_file w p data).
Proof. unfold write_file. apply keeps_jobs_bind; [auto with frame|]. by intros _ st. Qed.

Lemma keeps_jobs_http_get w u : keeps_jobs (http_get w u).
Proof. by intros st. Qed.

Lemma keeps_jobs_fetch_attempts w u p n : keeps_jobs (fetch_attempts w u p n).
Proof.
  induction n as [|n IH]; simpl; [auto with frame|].
  apply keeps_jobs_bind; [apply keeps_jobs_http_get|].
  intros r. destruct (_ =? _)%Z; [apply keeps_jobs_write_file|done].
Qed.

Lemma keeps_jobs_save_image w u d f n : keeps_jobs (save_image w u d f n).
Proof.
  unfold save_image. apply keeps_jobs_try_except; [|auto with frame].
  destruct (startswith _ _); [|apply keeps_jobs_fetch_attempts].
  destruct (split_once _ _) as [[h enc]|]; [|auto with frame].
  apply keeps_jobs_bind; [auto with frame|]. intros. apply keeps_jobs_write_file.
Qed.

Lemma keeps_jobs_prelude w term n : keeps_jobs (prelude w term n).
Proof.
  unfold prelude. apply keeps_jobs_bind; [apply keeps_jobs_create_driver|].
  intros d. repeat (apply keeps_jobs_bind; [auto with frame|]; intros).
  auto with frame.
Qed.

(** The handler marks the job failed and re-raises. *)
Lemma on_error_present {w} job_id e st j :
  job_statuses st !! job_id = Some j ->
  on_error w job_id e st
  = (Raise (HTTPException 500 ("Scraping task failed: " +:+ str_exn w e)),
     set_job_statuses (insert job_id (with_status "failed" j)) st).
Proof. intros H. unfold on_error, bind, update_job. by rewrite H. Qed.

Lemma on_error_raises {w} job_id e st : is_ok (fst (on_error w job_id e st)) = false.
Proof. unfold on_error, bind, update_job. by destruct (_ !! _). Qed.

(** ** Fetcher: the retry loop *)

Lemma add_gets_S n st : add_gets n (set_gets S st) = add_gets (S n) st.
Proof. unfold add_gets, set_gets. simpl. f_equal. lia. Qed.

Lemma fetch_attempts_exhausted w image_url file_path n : forall st,
  (forall i, i < n -> not_success w image_url (gets st + i)) ->
  fetch_attempts w image_url file_path n st = (Ok tt, add_gets n st).
Proof.
  induction n as [|n IH]; intros st Hall; simpl.
  - unfold ret, add_gets, set_gets. destruct st; simpl. do 2 f_equal. lia.
  - unfold bind, http_get.
    destruct (Hall 0) as (r & Hr & Hc); [lia|]. rewrite Nat.add_0_r in Hr. rewrite Hr.
    apply Z.eqb_neq in Hc. rewrite Hc. rewrite IH.
    + by rewrite add_gets_S.
    + intros i Hi. simpl. rewrite <- Nat.add_succ_r. apply Hall. lia.
Qed.


(** ** Claims about the extractor *)

(** C7 (as amended): when every element that has a resolvable URL without
    the text "data:image/gif" in it reports width and height attributes
    that are unset, empty or accepted by [int], [scrape_all_images] returns
    exactly the URLs of the elements that have a resolvable source URL
    (eager attribute first, lazy-load attribute as fallback), whose URL
    does not contain the text "data:image/gif" anywhere (case-sensitive)
    and whose width and height are each at least 100 (unset ones counted as
    0), in DOM order, without deduplication, reordering or truncation. *)
Theorem scrape_all_images_spec (w : World) (images : list Img) :
  find_elements w = Ok images ->
  (forall img, img ∈ images -> has_candidate_url img ->
               readable w (width img) /\ readable w (height img)) ->
  scrape_all_images w = Ok (extractor_spec w images).
Proof.
  intros Hfind Hdims. unfold scrape_all_images. rewrite Hfind. simpl.
  by rewrite scrape_loop_spec.
Qed.

Lemma scrape_all_images_spec_witness :
  scrape_all_images (sample_world (page_cats ++ page_gif_marker) http_ok)
  = Ok ["http://img.example/1.jpg"; "data:image/png;base64,QUJD";
        "data:image/GIF;base64,QUJD"].
Proof.
  apply (scrape_all_images_spec (sample_world (page_cats ++ page_gif_marker) http_ok)
           (page_cats ++ page_gif_marker)).
  - reflexivity.
  - intros img Hin _. unfold page_cats, page_gif_marker in Hin. simpl in Hin.
    repeat (apply elem_of_cons in Hin as [->|Hin]); [split; reflexivity ..|].
    by apply elem_of_nil in Hin.
Defined.

(** C7 as stated fails in two ways.  An element with a usable URL and a
    non-numeric width makes the extractor raise instead of returning the
    URLs the specification describes.  And on a page whose dimensions are
    all readable the code's test differs from the specification's: a remote
    URL that mentions "data:image/gif" in its query is dropped although it
    is no inline placeholder, and an inline GIF written "data:image/GIF" is
    kept. *)
Lemma scrape_all_images_spec_counterexample :
  ~ (forall (w : World) (images : list Img),
       find_elements w = Ok images ->
       scrape_all_images w = Ok (claimed_urls w images))
  /\ ~ (forall (w : World) (images : list Img),
         find_elements w = Ok images ->
         (forall img, img ∈ images ->
                      readable w (width img) /\ readable w (height img)) ->
         scrape_all_images w = Ok (claimed_urls w images)).
Proof.
  split; intros H.
  - specialize (H (sample_world page_bad_width http_ok) page_bad_width eq_refl).
    vm_compute in H. discriminate H.
  - specialize (H (sample_world page_gif_marker http_ok) page_gif_marker eq_refl).
    assert (scrape_all_images (sample_world page_gif_marker http_ok)
            = Ok (claimed_urls (sample_world page_gif_marker http_ok) page_gif_marker))
      as Hc.
    { apply H. intros img Hin. unfold page_gif_marker in Hin.
      repeat (apply elem_of_cons in Hin as [->|Hin]); [split; reflexivity ..|].
      by apply elem_of_nil in Hin. }
    vm_compute in Hc. discriminate Hc.
Qed.

(** Where the two tests agree on every resolved URL, the amended output is
    the output the specification describes. *)
Lemma extractor_spec_claimed w images :
  (forall img url, img ∈ images -> resolved_url img = Some url ->
     has_gif_marker url = is_animated_placeholder url) ->
  extractor_spec w images = claimed_urls w images.
Proof.
  unfold extractor_spec, claimed_urls. intros Hagree.
  induction images as [|img rest IH]; [done|]. simpl.
  change (list_omap Img string (candidate w) rest) with (omap (candidate w) rest).
  change (list_omap Img string (claimed_candidate w) rest)
    with (omap (claimed_candidate w) rest).
  rewrite IH by (intros i u Hi; apply Hagree; by right).
  unfold candidate, claimed_candidate.
  destruct (resolved_url img) as [u|] eqn:Hu; [|done].
  by rewrite (Hagree img u (list_elem_of_here _ _) Hu).
Qed.






(** ** Claims about status and cancellation requests *)

(** C8: cancelling a job whose status is not "pending" raises HTTP 400 and
    leaves the whole state, hence the job's record, unchanged; for an id
    that is not in the table both [get_job_status] and [cancel_job] raise
    HTTP 404 and change nothing. *)
Theorem cancel_and_status_errors (st : State) (job_id : string) :
  (forall j, job_statuses st !! job_id = Some j -> status j <> "pending" ->
     cancel_job job_id st
     = (Raise (HTTPException 400 "Job cannot be cancelled in its current state"), st))
  /\ (job_statuses st !! job_id = None ->
      get_job_status job_id st = (Raise (HTTPException 404 "Job not found"), st)
      /\ cancel_job job_id st = (Raise (HTTPException 404 "Job not found"), st)).
Proof.
  split.
  - intros j Hj Hs. unfold cancel_job. rewrite Hj.
    apply String.eqb_neq in Hs. by rewrite Hs.
  - intros Hn. unfold get_job_status, cancel_job. by rewrite Hn.
Qed.

Lemma cancel_and_status_errors_witness :
  cancel_job "job-1" st_finished
  = (Raise (HTTPException 400 "Job cannot be cancelled in its current state"), st_finished)
  /\ get_job_status "job-2" st_finished
     = (Raise (HTTPException 404 "Job not found"), st_finished)
  /\ cancel_job "job-2" st_finished
     = (Raise (HTTPException 404 "Job not found"), st_finished).
Proof.
  split.
  - apply (proj1 (cancel_and_status_errors st_finished "job-1")
             {| status := "completed"; images_scraped := 2; total_images := Some 3%Z;
                folder_path := "GoogleSearchImages/out" |}).
    + vm_compute. reflexivity.
    + simpl. discriminate.
  - apply (proj2 (cancel_and_status_errors st_finished "job-2")).
    vm_compute. reflexivity.
Defined.

(** ** Claims about the fetcher *)

Lemma save_image_remote w image_url folder_path file_name n st :
  startswith "data:image/" image_url = false ->
  save_image w image_url folder_path file_name n st
  = try_except
      (fetch_attempts w image_url (os_path_join folder_path (file_name +:+ ".jpg")) n)
      (fun e => raise (HTTPException 500 ("Failed to save image: " +:+ str_exn w e))) st.
Proof. intros H. unfold save_image. by rewrite H. Qed.







(** C4 (as amended): for a remote URL whose three GETs all return a non-200
    response, [save_image] returns without raising after exactly three GETs
    and writes no file; the loop iteration then records the candidate's
    ordinal in [images_scraped] as it does after a successful fetch, leaves
    the status alone and goes on to the next candidate. *)
Theorem save_image_three_failures (w : World) (image_url : string) (st : State) :
  startswith "data:image/" image_url = false ->
  (forall i, i < 3 -> not_success w image_url (gets st + i)) ->
  (forall folder_path file_name,
     save_image w image_url folder_path file_name 3 st = (Ok tt, add_gets 3 st))
  /\ (forall job_id search_term folder_path driver index rest j,
        job_statuses st !! job_id = Some j ->
        task_step w (TLoop job_id search_term folder_path driver index (image_url :: rest)) st
        = (TLoop job_id search_term folder_path driver (index + 1) rest,
           set_job_statuses (insert job_id (with_images_scraped index j)) (add_gets 3 st))).
Proof.
  intros Hremote Hall.
  assert (forall folder_path file_name,
    save_image w image_url folder_path file_name 3 st = (Ok tt, add_gets 3 st)) as Hsave.
  { intros. rewrite save_image_remote by done. unfold try_except.
    by rewrite fetch_attempts_exhausted. }
  split; [done|]. intros job_id search_term folder_path driver index rest j Hj.
  unfold task_step, loop_body. rewrite Hj. unfold bind. rewrite Hsave.
  unfold update_job. simpl. by rewrite Hj.
Qed.

Lemma save_image_three_failures_witness :
  let w := sample_world [] http_404 in
  task_step w (TLoop "job-1" "cats" "GoogleSearchImages/out" 0 1
                 ["http://img.example/1.jpg"; "http://img.example/2.jpg"]) (st_created 3)
  = (TLoop "job-1" "cats" "GoogleSearchImages/out" 0 2 ["http://img.example/2.jpg"],
     set_job_statuses
       (insert "job-1" {| status := "pending"; images_scraped := 1; total_images := Some 3%Z;
                          folder_path := "GoogleSearchImages/out" |})
       (add_gets 3 (st_created 3))).
Proof.
  intros w.
  apply (proj2 (save_image_three_failures w "http://img.example/1.jpg" (st_created 3)
                  eq_refl
                  ltac:(intros i Hi; exists {| status_code := 404; content := [] |};
                        split; [reflexivity|discriminate]))
           "job-1" "cats" "GoogleSearchImages/out" 0%nat 1%Z ["http://img.example/2.jpg"]
           {| status := "pending"; images_scraped := 0; total_images := Some 3%Z;
              folder_path := "GoogleSearchImages/out" |}).
  vm_compute. reflexivity.
Defined.

(** C4 as stated fails: after three non-200 answers the iteration still sets
    [images_scraped] to the candidate's ordinal. *)
Lemma save_image_three_failures_counterexample :
  ~ (forall (w : World) (image_url job_id search_term folder_path : string)
            (index : Z) (st : State) (j : Job),
       startswith "data:image/" image_url = false ->
       (forall i, i < 3 -> not_success w image_url (gets st + i)) ->
       job_statuses st !! job_id = Some j ->
       let st' := snd (loop_body w job_id search_term folder_path index image_url st) in
       images_scraped <$> (job_statuses st' !! job_id) = Some (images_scraped j)).
Proof.
  intros H.
  specialize (H (sample_world [] http_404) "http://img.example/1.jpg" "job-1" "cats"
                "GoogleSearchImages/out" 1%Z (st_created 3)
                {| status := "pending"; images_scraped := 0; total_images := Some 3%Z;
                   folder_path := "GoogleSearchImages/out" |}
                eq_refl).
  assert (forall i, i < 3 ->
            not_success (sample_world [] http_404) "http://img.example/1.jpg"
                        (gets (st_created 3) + i)) as Hall.
  { intros i _. exists {| status_code := 404; content := [] |}.
    split; [reflexivity|discriminate]. }
  specialize (H Hall). vm_compute in H. specialize (H eq_refl). discriminate H.
Qed.

(** ** Invariants of the service *)

Lemma update_job_present job_id f st j :
  job_statuses st !! job_id = Some j ->
  update_job job_id f st = (Ok tt, set_job_statuses (insert job_id (f j)) st).
Proof. intros H. unfold update_job. by rewrite H. Qed.

Lemma extends_refl tbl : extends tbl tbl.
Proof. intros id j H. eauto. Qed.

Lemma extends_trans t1 t2 t3 : extends t1 t2 -> extends t2 t3 -> extends t1 t3.
Proof.
  intros H12 H23 id j H. destruct (H12 _ _ H) as (j' & H' & E').
  destruct (H23 _ _ H') as (j'' & H'' & E''). exists j''. split; [done|congruence].
Qed.

Lemma extends_update tbl job_id j j' :
  tbl !! job_id = Some j -> total_images j' = total_images j ->
  extends tbl (<[job_id := j']> tbl).
Proof.
  intros Hj Ht id k Hk. destruct (decide (job_id = id)) as [<-|Hne].
  - rewrite lookup_insert_eq. exists j'. split; [done|congruence].
  - rewrite lookup_insert_ne by done. eauto.
Qed.

Lemma extends_fresh tbl job_id j :
  tbl !! job_id = None -> extends tbl (<[job_id := j]> tbl).
Proof.
  intros Hn id k Hk. rewrite lookup_insert_ne by congruence. eauto.
Qed.

Lemma task_ok_extends tbl tbl' t : extends tbl tbl' -> task_ok tbl t -> task_ok tbl' t.
Proof.
  intros He. destruct t as [id term n fp|id term fp d idx urls|id r]; simpl; [| |done].
  - intros (j & Hj & Hn). destruct (He _ _ Hj) as (j' & Hj' & Ht).
    exists j'. split; [done|congruence].
  - intros (j & Hj & Hi & Hb). destruct (He _ _ Hj) as (j' & Hj' & Ht).
    exists j'. rewrite Ht. done.
Qed.

Lemma job_ok_with_status s j :
  s ∈ written_statuses -> job_ok j -> job_ok (with_status s j).
Proof. intros Hs [_ Hb]. split; done. Qed.

Lemma length_slice_to {A} (n : Z) (l : list A) :
  (0 <= n)%Z -> (Z.of_nat (length (slice_to (Some n) l)) <= n)%Z.
Proof.
  intros Hn. unfold slice_to. apply Z.leb_le in Hn as Hn'. rewrite Hn'.
  rewrite length_take. lia.
Qed.

Lemma prelude_urls w search_term num_images st driver image_urls st' :
  prelude w search_term num_images st = (Ok (driver, image_urls), st') ->
  exists all_urls, image_urls = slice_to num_images all_urls.
Proof.
  unfold prelude, bind, lift, ret.
  destruct (create_driver w st) as [[d|e] st1]; [|done].
  destruct (driver_get w _); [|done]. destruct (scroll_down w 5); [|done].
  destruct (scrape_all_images w) as [urls|]; [|done].
  intros [= <- <- <-]. eauto.
Qed.

(** The handler keeps a well-formed table well formed. *)
Lemma after_raise_inv {w} job_id e st t' st' j :
  after_raise w job_id e st = (t', st') ->
  job_statuses st !! job_id = Some j ->
  map_Forall (fun _ j => job_ok j) (job_statuses st) ->
  map_Forall (fun _ j => job_ok j) (job_statuses st')
  /\ task_ok (job_statuses st') t'
  /\ extends (job_statuses st) (job_statuses st').
Proof.
  intros Hstep Hj Hall. unfold after_raise in Hstep.
  rewrite (on_error_present _ _ _ _ Hj) in Hstep. injection Hstep as <- <-. simpl.
  split; [|split; [done|by eapply extends_update]].
  apply map_Forall_insert_2; [|done].
  apply job_ok_with_status; [|by eapply Hall]. unfold written_statuses. set_solver.
Qed.

(** One step of a task keeps the table well formed and the task in
    agreement with it, and never drops a job or changes its requested
    count. *)
Lemma task_step_inv w t st t' st' :
  task_step w t st = (t', st') ->
  task_ok (job_statuses st) t ->
  map_Forall (fun _ j => job_ok j) (job_statuses st) ->
  map_Forall (fun _ j => job_ok j) (job_statuses st')
  /\ task_ok (job_statuses st') t'
  /\ extends (job_statuses st) (job_statuses st').
Proof.
  intros Hstep Htask Hall.
  destruct t as [id term n fp|id term fp d idx [|url rest]|id r]; simpl in *.
  - (* before the loop *)
    destruct Htask as (j & Hj & Hn).
    pose proof (keeps_jobs_prelude w term n st) as Hk.
    destruct (prelude w term n st) as [[[d urls]|e] st1] eqn:Hp; simpl in Hk.
    + injection Hstep as <- <-. rewrite Hk.
      split; [done|]. split; [|apply extends_refl].
      exists j. split; [done|]. split; [lia|]. intros m Hm H0.
      destruct (prelude_urls _ _ _ _ _ _ _ Hp) as (l & ->).
      rewrite Hm in Hn. subst n. pose proof (length_slice_to m l H0). lia.
    + rewrite <- Hk in Hall, Hj |- *. by eapply after_raise_inv.
  - (* after the loop *)
    destruct Htask as (j & Hj & Hi & Hb).
    unfold finish, bind in Hstep. rewrite (update_job_present _ _ _ _ Hj) in Hstep.
    remember (set_job_statuses (insert id (with_status "completed" j)) st) as st1 eqn:E1.
    assert (job_statuses st1 !! id = Some (with_status "completed" j)) as Hj1.
    { rewrite E1. simpl. by rewrite lookup_insert_eq. }
    assert (map_Forall (fun _ j => job_ok j) (job_statuses st1)) as Hall1.
    { rewrite E1. simpl. apply map_Forall_insert_2; [|done].
      apply job_ok_with_status; [|by eapply Hall]. unfold written_statuses. set_solver. }
    assert (extends (job_statuses st) (job_statuses st1)) as He1.
    { rewrite E1. simpl. by eapply extends_update. }
    clear E1.
    pose proof (keeps_jobs_quit w d st1) as Hk.
    destruct (quit w d st1) as [[[]|e] st2]; simpl in Hk.
    + injection Hstep as <- <-. rewrite Hk. done.
    + rewrite <- Hk in Hall1, Hj1, He1.
      destruct (after_raise_inv _ _ _ _ _ _ Hstep Hj1 Hall1) as (? & ? & ?).
      split; [done|]. split; [done|]. by eapply extends_trans.
  - (* one iteration *)
    destruct Htask as (j & Hj & Hi & Hb).
    unfold loop_body, bind in Hstep. rewrite Hj in Hstep.
    pose proof (keeps_jobs_save_image w url fp (term +:+ "_" +:+ pretty idx) 3 st) as Hk.
    destruct (save_image w url fp _ 3 st) as [[[]|e] st1]; simpl in Hk.
    + rewrite <- Hk in Hj, Hall |- *.
      rewrite (update_job_present _ _ _ _ Hj) in Hstep. injection Hstep as <- <-. simpl.
      split; [|split].
      * apply map_Forall_insert_2; [|done]. destruct (Hall _ _ Hj) as [Hs _].
        split; [done|]. simpl in *. intros m Hm H0. specialize (Hb m Hm H0). lia.
      * exists (with_images_scraped idx j). rewrite lookup_insert_eq.
        split; [done|]. split; [lia|]. simpl in *. intros m Hm H0.
        specialize (Hb m Hm H0). lia.
      * by eapply extends_update.
    + rewrite <- Hk in Hall, Hj |- *. by eapply after_raise_inv.
  - injection Hstep as <- <-. split; [done|]. split; [done|apply extends_refl].
Qed.

Lemma start_scrape_jobs w request st :
  match start_scrape w request st with
  | (Ok (_, t), st') =>
      exists fp,
        t = TStart (uuid4 w) (ScrapeRequest.search_term request)
                   (ScrapeRequest.num_images request) fp
        /\ job_statuses st'
           = <[uuid4 w := {| status := "pending"; images_scraped := 0;
                             total_images := ScrapeRequest.num_images request;
                             folder_path := fp |}]> (job_statuses st)
  | (Raise _, st') => job_statuses st' = job_statuses st
  end.
Proof.
  unfold start_scrape, try_except, bind, lift, ret, raise.
  destruct (makedirs w _); simpl; eauto.
Qed.

Lemma cancel_job_jobs job_id st :
  job_statuses (snd (cancel_job job_id st)) = job_statuses st
  \/ exists j, job_statuses st !! job_id = Some j
       /\ job_statuses (snd (cancel_job job_id st))
          = <[job_id := with_status "cancelled" j]> (job_statuses st).
Proof.
  unfold cancel_job. destruct (job_statuses st !! job_id) as [j|] eqn:Hj; [|by left].
  destruct (String.eqb (status j) "pending"); [|by left].
  right. exists j. split; [done|]. unfold bind. by rewrite (update_job_present _ _ _ _ Hj).
Qed.

Lemma get_job_status_state job_id st : snd (get_job_status job_id st) = st.
Proof.
  unfold get_job_status. destruct (_ !! _) as [j|]; [|done].
  by destruct (total_images j).
Qed.

Lemma sys_step_inv ev s : admissible ev s -> sys_inv s -> sys_inv (sys_step ev s).
Proof.
  intros Hadm [Hall Htasks]. destruct ev as [w request|job_id|job_id|w n]; simpl in *.
  - (* POST /scrape *)
    pose proof (start_scrape_jobs w request (state s)) as Hs.
    destruct (start_scrape w request (state s)) as [[[resp t]|e] st'].
    + destruct Hs as (fp & -> & Hst). split; simpl; rewrite Hst.
      * apply map_Forall_insert_2; [|done]. split; simpl; [|lia].
        unfold written_statuses. set_solver.
      * apply Forall_app. split.
        -- eapply Forall_impl; [done|]. intros t. apply task_ok_extends.
           by apply extends_fresh.
        -- apply Forall_singleton. simpl. eexists. by rewrite lookup_insert_eq.
    + split; simpl; by rewrite Hs.
  - (* GET /status *)
    by rewrite get_job_status_state.
  - (* DELETE /cancel *)
    destruct (cancel_job_jobs job_id (state s)) as [Hc|(j & Hj & Hc)];
      split; simpl; rewrite Hc; try done.
    + apply map_Forall_insert_2; [|done].
      apply job_ok_with_status; [|by eapply Hall]. unfold written_statuses. set_solver.
    + eapply Forall_impl; [done|]. intros t. apply task_ok_extends.
      by eapply extends_update.
  - (* the scheduler advances a task *)
    destruct (tasks s !! n) as [t|] eqn:Ht; [|done].
    destruct (task_step w t (state s)) as [t' st'] eqn:Hstep.
    destruct (task_step_inv _ _ _ _ _ Hstep) as (Hall' & Ht' & Hext); [|done|].
    { eapply Forall_lookup_1; eauto. }
    split; simpl; [done|].
    apply Forall_insert; [|done].
    eapply Forall_impl; [done|]. intros t0. by apply task_ok_extends.
Qed.

Lemma reachable_inv s : reachable s -> sys_inv s.
Proof.
  induction 1 as [st Hst|s ev _ IH Hadm].
  - split; simpl; [rewrite Hst; apply map_Forall_empty|constructor].
  - by apply sys_step_inv.
Qed.

(** No request and no step of any pipeline ever writes the status
    "running". *)
Lemma status_never_running s job_id j :
  reachable s -> job_statuses (state s) !! job_id = Some j -> status j <> "running".
Proof.
  intros Hr Hj. destruct (reachable_inv _ Hr) as [Hall _].
  destruct (Hall _ _ Hj) as [Hs _]. unfold written_statuses in Hs.
  intros E. rewrite E in Hs.
  repeat (apply elem_of_cons in Hs as [Hs|Hs]; [discriminate Hs|]).
  by apply elem_of_nil in Hs.
Qed.

Lemma polled_lookup job_id st js :
  polled job_id st = Some js ->
  exists j, job_statuses st !! job_id = Some j
    /\ JobStatus.status js = status j
    /\ JobStatus.images_scraped js = images_scraped j
    /\ Some (JobStatus.total_images js) = total_images j.
Proof.
  unfold polled, get_job_status. destruct (job_statuses st !! job_id) as [j|]; [|done].
  destruct (total_images j) as [n|] eqn:Hn; [|done].
  simpl. intros [= <-]. exists j. by rewrite Hn.
Qed.

(** ** Claims about progress *)

(** C6 (as amended): in every state the service can reach, every status
    snapshot of a job whose requested count is not negative shows
    [images_scraped <= total_images]. *)
Theorem images_scraped_bounded (s : Sys) (job_id : string) (js : JobStatus.t) :
  reachable s ->
  polled job_id (state s) = Some js ->
  (0 <= JobStatus.total_images js)%Z ->
  (JobStatus.images_scraped js <= JobStatus.total_images js)%Z.
Proof.
  intros Hr Hp H0. destruct (polled_lookup _ _ _ Hp) as (j & Hj & _ & Hi & Ht).
  destruct (reachable_inv _ Hr) as [Hall _]. destruct (Hall _ _ Hj) as [_ Hb].
  rewrite Hi. by apply Hb.
Qed.

Lemma reachable_run_events evs : forall s,
  reachable s -> admissible_all evs s -> reachable (run_events evs s).
Proof.
  induction evs as [|ev evs IH]; intros s Hr Hadm; [done|].
  destruct Hadm as [Ha Hrest]. apply (IH (sys_step ev s)); [|done].
  by apply reach_step.
Defined.

Lemma reachable_first_fetch : reachable sys_first_fetch.
Proof.
  apply reachable_run_events.
  - by apply reach_init.
  - vm_compute. tauto.
Defined.

Lemma images_scraped_bounded_witness :
  match polled "job-1" (state sys_first_fetch) with
  | Some js => (JobStatus.images_scraped js <= JobStatus.total_images js)%Z
  | None => False
  end.
Proof.
  destruct (polled "job-1" (state sys_first_fetch)) as [js|] eqn:E.
  - apply (images_scraped_bounded sys_first_fetch "job-1" js reachable_first_fetch E).
    vm_compute in E. injection E as <-. simpl. lia.
  - vm_compute in E. discriminate E.
Defined.

(** C6 as stated fails: a job created with a negative requested count shows
    [images_scraped = 0 > total_images] from its first snapshot on. *)
Lemma images_scraped_bounded_counterexample :
  ~ (forall (s : Sys) (job_id : string) (js : JobStatus.t),
       reachable s ->
       polled job_id (state s) = Some js ->
       (JobStatus.images_scraped js <= JobStatus.total_images js)%Z).
Proof.
  intros H.
  assert (reachable sys_negative) as Hr.
  { apply reach_step; [by apply reach_init|by vm_compute]. }
  specialize (H sys_negative "job-1"
                {| JobStatus.job_id := "job-1"; JobStatus.status := "pending";
                   JobStatus.images_scraped := 0; JobStatus.total_images := -1;
                   JobStatus.folder_path := "GoogleSearchImages/out" |} Hr).
  assert (0 <= -1)%Z as Habs; [|lia].
  apply H. vm_compute. reflexivity.
Qed.

(** C3 (as amended): the pipeline never writes "running".  A loop iteration
    that completes writes only [images_scraped]: the record after it,
    while the task is still in its loop, has the status it had before the
    iteration (so "pending" unless the job was cancelled), the candidate's
    ordinal as progress and the other fields unchanged.  Polling the job
    then returns exactly these values when the job was created with an
    integer count; for a job created with a null count the poll raises
    pydantic's validation error instead of returning. *)
Theorem progress_update_keeps_status (w : World)
    (job_id search_term folder : string) (driver : nat) (index : Z)
    (image_url : string) (rest : list string) (st st' : State) (j : Job) :
  job_statuses st !! job_id = Some j ->
  task_step w (TLoop job_id search_term folder driver index (image_url :: rest)) st
  = (TLoop job_id search_term folder driver (index + 1) rest, st') ->
  job_statuses st' !! job_id
  = Some {| status := status j; images_scraped := index;
            total_images := total_images j; folder_path := folder_path j |}
  /\ fst (get_job_status job_id st')
     = match total_images j with
       | Some n =>
           Ok {| JobStatus.job_id := job_id;
                 JobStatus.status := status j;
                 JobStatus.images_scraped := index;
                 JobStatus.total_images := n;
                 JobStatus.folder_path := folder_path j |}
       | None => Raise (ValidationError "JobStatus" "total_images")
       end.
Proof.
  intros Hj Hstep. simpl in Hstep. unfold loop_body, bind in Hstep. rewrite Hj in Hstep.
  pose proof (keeps_jobs_save_image w image_url folder
                (search_term +:+ "_" +:+ pretty index) 3 st) as Hk.
  destruct (save_image w image_url folder _ 3 st) as [[[]|e] st1]; simpl in Hk.
  - rewrite <- Hk in Hj. rewrite (update_job_present _ _ _ _ Hj) in Hstep.
    injection Hstep as <-. unfold get_job_status. simpl.
    rewrite lookup_insert_eq. split; [done|]. simpl. by destruct (total_images j).
  - unfold after_raise in Hstep. destruct (on_error w job_id e st1). discriminate Hstep.
Qed.

Lemma progress_update_keeps_status_witness :
  job_statuses (state sys_first_fetch) !! "job-1"
  = Some {| status := "pending"; images_scraped := 1; total_images := Some 3%Z;
            folder_path := "GoogleSearchImages/out" |}
  /\ fst (get_job_status "job-1" (state sys_first_fetch))
     = Ok {| JobStatus.job_id := "job-1"; JobStatus.status := "pending";
             JobStatus.images_scraped := 1; JobStatus.total_images := 3;
             JobStatus.folder_path := "GoogleSearchImages/out" |}.
Proof.
  apply (progress_update_keeps_status (sample_world page_cats http_ok)
           "job-1" "cats" "GoogleSearchImages/out" 0%nat 1%Z
           "http://img.example/1.jpg" ["data:image/png;base64,QUJD"]
           st_loop_entry (state sys_first_fetch)
           {| status := "pending"; images_scraped := 0; total_images := Some 3%Z;
              folder_path := "GoogleSearchImages/out" |}).
  - vm_compute. reflexivity.
  - vm_compute. reflexivity.
Defined.

(** C3 as stated fails: after the first fetch has succeeded and while the
    task is still in its loop, a poll shows "pending", not "running". *)
Lemma progress_update_keeps_status_counterexample :
  ~ (forall (w : World) (job_id search_term folder_path : string) (driver : nat)
            (image_url : string) (rest : list string) (st st' : State) (j : Job),
       job_statuses st !! job_id = Some j ->
       task_step w (TLoop job_id search_term folder_path driver 1 (image_url :: rest)) st
       = (TLoop job_id search_term folder_path driver 2 rest, st') ->
       JobStatus.status <$> polled job_id st' = Some "running").
Proof.
  intros H.
  specialize (H (sample_world page_cats http_ok)
                "job-1" "cats" "GoogleSearchImages/out" 0%nat
                "http://img.example/1.jpg" ["data:image/png;base64,QUJD"]
                st_loop_entry (state sys_first_fetch)
                {| status := "pending"; images_scraped := 0; total_images := Some 3%Z;
                   folder_path := "GoogleSearchImages/out" |}).
  vm_compute in H. specialize (H eq_refl eq_refl). discriminate H.
Qed.

(** ** The scheduler's steps and the function agree *)

Lemma run_task_done w n job_id r st :
  run_task w n (TDone job_id r) st = (TDone job_id r, st).
Proof. induction n as [|n IH]; [done|]. simpl. apply IH. Qed.

Lemma run_task_S w n t st :
  run_task w (S n) t st = let '(t', st') := task_step w t st in run_task w n t' st'.
Proof. done. Qed.

Lemma run_task_loop w job_id search_term folder_path driver image_urls :
  forall index st,
    run_task w (S (length image_urls))
      (TLoop job_id search_term folder_path driver index image_urls) st
    = let '(r, st') :=
        try_except
          (let* _ := for_images w job_id search_term folder_path index image_urls in
           finish w job_id driver)
          (on_error w job_id) st in
      (TDone job_id r, st').
Proof.
  induction image_urls as [|image_url rest IH]; intros index st.
  - simpl. unfold try_except, bind, ret.
    destruct (finish w job_id driver st) as [[[]|e] st']; [done|].
    unfold after_raise. by destruct (on_error w job_id e st').
  - cbn [length for_images]. rewrite run_task_S. cbn [task_step].
    unfold try_except, bind at 1 2.
    destruct (loop_body w job_id search_term folder_path index image_url st)
      as [[[]|e] st1].
    + rewrite IH. unfold try_except. done.
    + unfold after_raise. destruct (on_error w job_id e st1) as [r st2].
      apply run_task_done.
Qed.

Lemma scrape_images_task_unfold w job_id search_term num_images folder_path st :
  scrape_images_task w job_id search_term num_images folder_path st
  = match prelude w search_term num_images st with
    | (Ok (driver, image_urls), st1) =>
        try_except
          (let* _ := for_images w job_id search_term folder_path 1 image_urls in
           finish w job_id driver)
          (on_error w job_id) st1
    | (Raise e, st1) => on_error w job_id e st1
    end.
Proof.
  unfold scrape_images_task, try_except, bind at 1.
  by destruct (prelude w search_term num_images st) as [[[driver image_urls]|e] st1].
Qed.

(** Advancing a fresh task until it is done gives the result and the state
    of [scrape_images_task]. *)
Lemma run_task_scrape_images_task w job_id search_term num_images folder_path st :
  exists fuel,
    run_task w fuel (TStart job_id search_term num_images folder_path) st
    = (TDone job_id
         (fst (scrape_images_task w job_id search_term num_images folder_path st)),
       snd (scrape_images_task w job_id search_term num_images folder_path st)).
Proof.
  rewrite scrape_images_task_unfold.
  destruct (prelude w search_term num_images st) as [[[driver image_urls]|e] st1] eqn:Hp.
  - exists (S (S (length image_urls))).
    rewrite run_task_S. cbn [task_step]. rewrite Hp. rewrite run_task_loop.
    by destruct (try_except _ _ st1) as [r st2].
  - exists 1. cbn [run_task task_step]. rewrite Hp. unfold after_raise.
    by destruct (on_error w job_id e st1).
Qed.

(** ** Claims the code does not meet *)

(** The two request handlers do leave a status other than "pending" alone,
    whichever job they are called for. *)
Lemma requests_keep_terminal_status st job_id other j :
  job_statuses st !! job_id = Some j ->
  status j <> "pending" ->
  job_statuses (snd (get_job_status other st)) !! job_id = Some j
  /\ job_statuses (snd (cancel_job other st)) !! job_id = Some j.
Proof.
  intros Hj Hs. split; [by rewrite get_job_status_state|].
  unfold cancel_job. destruct (job_statuses st !! other) as [k|] eqn:Hk; [|done].
  destruct (String.eqb (status k) "pending") eqn:Ek; [|done].
  unfold bind. rewrite (update_job_present _ _ _ _ Hk). simpl.
  rewrite lookup_insert_ne; [done|]. intros ->. rewrite Hj in Hk. injection Hk as ->.
  by apply String.eqb_eq in Ek.
Qed.

(** C1: the scenario in which a terminal status changes.  A job is created,
    cancelled while pending (status "cancelled"), and then its background
    task runs: the membership test of the loop still finds the id, and the
    task ends by writing "completed" over "cancelled". *)
Theorem cancelled_status_overwritten :
  status <$> lookup_job "job-1" (st_created 1) = Some "pending"
  /\ status <$> lookup_job "job-1" (st_cancelled 1) = Some "cancelled"
  /\ status <$> lookup_job "job-1" (st_cancelled_then_run 1) = Some "completed".
Proof. vm_compute. done. Qed.

(** C2: the same scenario seen through status polls, with two pictures
    requested.  After the cancellation the poll shows "cancelled" with no
    picture scraped; after the task has run it shows two pictures scraped,
    both files on disk, and "completed". *)
Theorem cancelled_job_still_scraped :
  polled "job-1" (st_cancelled 2)
  = Some {| JobStatus.job_id := "job-1"; JobStatus.status := "cancelled";
            JobStatus.images_scraped := 0; JobStatus.total_images := 2;
            JobStatus.folder_path := "GoogleSearchImages/out" |}
  /\ polled "job-1" (st_cancelled_then_run 2)
     = Some {| JobStatus.job_id := "job-1"; JobStatus.status := "completed";
               JobStatus.images_scraped := 2; JobStatus.total_images := 2;
               JobStatus.folder_path := "GoogleSearchImages/out" |}
  /\ files (st_cancelled 2) = ∅
  /\ (map_to_list (files (st_cancelled_then_run 2))).*1
     = ["GoogleSearchImages/out/cats_1.jpg"; "GoogleSearchImages/out/cats_2.jpg"].
Proof. vm_compute. done. Qed.

(** C5: the pipeline on a page whose first candidate is an inline image with
    an undecodable payload.  The task raises, the job is marked failed and
    the second candidate is never fetched (no file, no GET), but the browser
    session opened by the task is still alive; the same job on a good page
    ends with the session closed. *)
Theorem session_left_open_on_failure :
  is_ok (fst run_malformed) = false
  /\ status <$> lookup_job "job-1" (snd run_malformed) = Some "failed"
  /\ files (snd run_malformed) = ∅
  /\ gets (snd run_malformed) = 0
  /\ drivers (snd run_malformed) = [true]
  /\ drivers st_finished = [false].
Proof. vm_compute. done. Qed.

(** * Further properties of the module *)

(** ** Scrolling *)

Lemma scroll_loop_settles w h n : forall i b,
  i <= b -> b <= i + n ->
  (forall m, i <= m < b -> scroll_to w m = Ok tt) ->
  (forall m, i <= m <= b -> scroll_height w m = Ok (h m)) ->
  b = i + n \/ (i < b /\ h b = h (b - 1)) ->
  scroll_loop w i n (h i) = Ok tt.
Proof.
  induction n as [|n IH]; intros i b Hib Hbn Hto Hh Hend; [done|].
  assert (i < b) as Hlt by (destruct Hend; lia).
  simpl. rewrite Hto by lia. simpl. rewrite (Hh (S i)) by lia. simpl.
  destruct (h (S i) =? h i)%Z eqn:Heq; [done|].
  apply (IH (S i) b); [lia|lia| | |].
  - intros m Hm. apply Hto. lia.
  - intros m Hm. apply Hh. lia.
  - destruct Hend as [->|[_ Hst]]; [left; lia|].
    destruct (decide (b = S i)) as [->|Hne]; [|right; split; [lia|done]].
    simpl in Hst. rewrite Nat.sub_0_r in Hst. apply Z.eqb_neq in Heq. done.
Qed.

(** X1: [scroll_down] returns normally as soon as two consecutive height
    measurements agree, or after [scroll_limit] scrolls: only the browser
    calls up to that point have to succeed, whatever later ones would do. *)
Theorem scroll_down_settles (w : World) (h : nat -> Z) (scroll_limit b : nat) :
  b <= scroll_limit ->
  (forall m, m < b -> scroll_to w m = Ok tt) ->
  (forall m, m <= b -> scroll_height w m = Ok (h m)) ->
  b = scroll_limit \/ stable_at h b ->
  scroll_down w scroll_limit = Ok tt.
Proof.
  intros Hb Hto Hh Hend. unfold scroll_down. rewrite (Hh 0) by lia. simpl.
  rewrite (scroll_loop_settles w h scroll_limit 0 b); [done|lia|lia| | |].
  - intros m Hm. apply Hto. lia.
  - intros m Hm. apply Hh. lia.
  - destruct Hend as [->|[Hpos Hst]]; [by left|by right].
Qed.

Lemma scroll_down_settles_witness : scroll_down growing_page_world 5 = Ok tt.
Proof.
  apply (scroll_down_settles growing_page_world
           (fun k => if k <? 2 then (1000 * Z.of_nat k)%Z else 2000%Z) 5 3).
  - lia.
  - intros m Hm. simpl. destruct (Nat.ltb_spec m 3); [done|lia].
  - intros m Hm. simpl. by destruct (m <? 2).
  - right. split; [lia|reflexivity].
Defined.

Lemma scroll_loop_fails w n : forall i last b e,
  i <= b < i + n ->
  (forall m, i <= m < b -> scroll_to w m = Ok tt) ->
  (forall m, i < m <= b -> exists z, scroll_height w m = Ok z /\
                             scroll_height w (m - 1) <> Ok z) ->
  (i < b -> scroll_height w i = Ok last) ->
  scroll_to w b = Raise e \/
    (scroll_to w b = Ok tt /\ scroll_height w (S b) = Raise e) ->
  scroll_loop w i n last = Raise e.
Proof.
  induction n as [|n IH]; intros i last b e Hb Hto Hgrow Hlast Hfail; [lia|].
  simpl. destruct (decide (i = b)) as [->|Hne].
  - destruct Hfail as [->|[-> ->]]; done.
  - rewrite Hto by lia. simpl.
    destruct (Hgrow (S i)) as (z & Hz & Hprev); [lia|]. rewrite Hz. simpl.
    simpl in Hprev. rewrite Nat.sub_0_r in Hprev. rewrite Hlast in Hprev by lia.
    destruct (z =? last)%Z eqn:Heq; [apply Z.eqb_eq in Heq; congruence|].
    apply (IH (S i) z b e); [lia| | | |done].
    + intros m Hm. apply Hto. lia.
    + intros m Hm. apply Hgrow. lia.
    + done.
Qed.

(** X2: when the page is still growing and a scroll or a height measurement
    within the limit raises, [scroll_down] raises HTTP 500 "Failed to scroll
    page", whatever the underlying exception was. *)
Theorem scroll_down_fails (w : World) (scroll_limit b : nat) (e : exn) :
  b < scroll_limit ->
  (forall m, m < b -> scroll_to w m = Ok tt) ->
  (forall m, m <= b -> is_ok (scroll_height w m) = true) ->
  (forall m, 0 < m <= b -> scroll_height w m <> scroll_height w (m - 1)) ->
  scroll_to w b = Raise e \/
    (scroll_to w b = Ok tt /\ scroll_height w (S b) = Raise e) ->
  scroll_down w scroll_limit = Raise (HTTPException 500 "Failed to scroll page").
Proof.
  intros Hb Hto Hok Hgrow Hfail. unfold scroll_down.
  destruct (scroll_height w 0) as [h0|e0] eqn:H0; [|done]. simpl.
  rewrite (scroll_loop_fails w scroll_limit 0 h0 b e); [done|lia| | |done|done].
  - intros m Hm. apply Hto. lia.
  - intros m Hm. specialize (Hok m ltac:(lia)). specialize (Hgrow m ltac:(lia)).
    destruct (scroll_height w m) as [z|]; [|done]. exists z. split; [done|].
    intros E. by rewrite E in Hgrow.
Qed.

Lemma scroll_down_fails_witness :
  scroll_down lost_browser_world 5 = Raise (HTTPException 500 "Failed to scroll page").
Proof.
  apply (scroll_down_fails lost_browser_world 5 1 (Exception "disconnected")).
  - lia.
  - intros m Hm. by replace m with 0 by lia.
  - done.
  - intros m Hm. replace m with 1 by lia. discriminate.
  - by left.
Defined.

(** ** The extractor's outcomes *)

Lemma scrape_img_raise_inv w img acc e :
  scrape_img w img acc = Raise e ->
  has_candidate_url img /\
  (unparseable w (width img) \/ unparseable w (height img)).
Proof.
  unfold scrape_img. destruct (py_or (src img) (data_src img)) as [u|] eqn:Hor; [|done].
  destruct (String.eqb u "") eqn:Eu; simpl; [done|].
  destruct (contains "data:image/gif" u) eqn:Eg; simpl; [done|].
  assert (has_candidate_url img) as Hc.
  { exists u. by rewrite (py_or_resolved_some _ _ Hor), Eu. }
  destruct (int_or_0 w (width img)) as [zw|ew] eqn:Ew; simpl.
  - destruct (int_or_0 w (height img)) as [zh|eh] eqn:Eh; simpl.
    + by destruct (_ && _).
    + intros _. split; [done|]. right. apply (proj2 (unparseable_not_readable w _)).
      unfold readable. rewrite Eh. simpl. discriminate.
  - intros _. split; [done|]. left. apply (proj2 (unparseable_not_readable w _)).
    unfold readable. rewrite Ew. simpl. discriminate.
Qed.

Lemma scrape_loop_raise_inv w images : forall acc e,
  scrape_loop w images acc = Raise e ->
  exists img, img ∈ images /\ has_candidate_url img /\
    (unparseable w (width img) \/ unparseable w (height img)).
Proof.
  induction images as [|img rest IH]; intros acc e Hr; [done|]. simpl in Hr.
  destruct (scrape_img w img acc) as [acc'|e'] eqn:Hi; simpl in Hr.
  - destruct (IH _ _ Hr) as (i & Hin & H). exists i. split; [by right|done].
  - exists img. split; [left|]. by eapply scrape_img_raise_inv.
Qed.

Lemma scrape_loop_ok_readable w images acc urls img :
  scrape_loop w images acc = Ok urls ->
  img ∈ images -> has_candidate_url img ->
  readable w (width img) /\ readable w (height img).
Proof.
  intros Hok Hin Hu. unfold readable.
  destruct (is_ok (int_or_0 w (width img))) eqn:Ew;
    [destruct (is_ok (int_or_0 w (height img))) eqn:Eh; [done|]|];
    exfalso;
    (assert (is_ok (scrape_loop w images acc) = false) as Hf;
     [|by rewrite Hok in Hf]);
    apply (scrape_loop_raises w images acc img Hin Hu);
    [right|left]; apply (proj2 (unparseable_not_readable w _)); unfold readable; congruence.
Qed.

Lemma resolved_url_source img u :
  resolved_url img = Some u ->
  u <> "" /\ (src img = Some u \/ (data_src img = Some u /\ truthy (src img) = false)).
Proof.
  unfold resolved_url, truthy.
  destruct (src img) as [s|]; [destruct (String.eqb s "") eqn:Es|]; simpl.
  - destruct (data_src img) as [d|]; [|done].
    destruct (String.eqb d "") eqn:Ed; [done|]. intros [= <-].
    apply String.eqb_neq in Ed. auto.
  - intros [= <-]. apply String.eqb_neq in Es. auto.
  - destruct (data_src img) as [d|]; [|done].
    destruct (String.eqb d "") eqn:Ed; [done|]. intros [= <-].
    apply String.eqb_neq in Ed. auto.
Qed.

Lemma length_extractor_spec w images :
  length (extractor_spec w images) <= length images.
Proof.
  unfold extractor_spec. induction images as [|img rest IH]; simpl; [done|].
  change (list_omap Img string (candidate w) rest) with (omap (candidate w) rest).
  destruct (candidate w img); simpl; lia.
Qed.

(** X3: whenever [scrape_all_images] returns, it returns no more URLs than
    the page has elements, and every returned URL is non-empty, does not
    contain "data:image/gif", and is the [src] of some element (or its
    [data-src] when [src] is missing or empty) whose width and height both
    read as at least 100. *)
Theorem scrape_all_images_sound (w : World) (images : list Img) (urls : list string) :
  find_elements w = Ok images ->
  scrape_all_images w = Ok urls ->
  length urls <= length images
  /\ forall url, url ∈ urls ->
       url <> "" /\ contains "data:image/gif" url = false
       /\ exists img, img ∈ images
            /\ (src img = Some url \/ (data_src img = Some url /\ truthy (src img) = false))
            /\ large_enough w img.
Proof.
  intros Hfind Hok. unfold scrape_all_images in Hok. rewrite Hfind in Hok. simpl in Hok.
  destruct (scrape_loop w images []) as [l|e] eqn:Hl; [|done]. injection Hok as ->.
  pose proof (scrape_loop_spec w images []
                (fun img Hin => scrape_loop_ok_readable w images [] urls img Hl Hin)) as Hs.
  rewrite Hl in Hs. injection Hs as ->. simpl.
  split; [apply length_extractor_spec|].
  intros url Hin. apply list_elem_of_omap in Hin as (img & Hin & Hc).
  unfold candidate in Hc. destruct (resolved_url img) as [u|] eqn:Hu; [|done].
  destruct (has_gif_marker u) eqn:Hp; simpl in Hc; [done|].
  destruct (min_dimension <=? dimension w (width img))%Z eqn:Hw; simpl in Hc; [|done].
  destruct (min_dimension <=? dimension w (height img))%Z eqn:Hh; simpl in Hc; [|done].
  injection Hc as <-. destruct (resolved_url_source _ _ Hu) as [Hne Hsrc].
  split; [done|]. split; [done|]. exists img. split; [done|]. split; [done|].
  destruct (scrape_loop_ok_readable w images [] _ img Hl Hin) as [Rw Rh].
  { by exists u. }
  unfold readable in *.
  destruct (int_or_0 w (width img)) as [wd|] eqn:Ew; [|done].
  destruct (int_or_0 w (height img)) as [hd|] eqn:Eh; [|done].
  exists wd, hd. rewrite (int_or_0_dimension _ _ _ Ew) in Hw.
  rewrite (int_or_0_dimension _ _ _ Eh) in Hh. unfold min_dimension in *.
  apply Z.leb_le in Hw, Hh. done.
Qed.

Lemma scrape_all_images_sound_witness :
  length ["http://img.example/1.jpg"; "data:image/png;base64,QUJD"] <= length page_cats
  /\ forall url, url ∈ ["http://img.example/1.jpg"; "data:image/png;base64,QUJD"] ->
       url <> "" /\ contains "data:image/gif" url = false
       /\ exists img, img ∈ page_cats
            /\ (src img = Some url \/ (data_src img = Some url /\ truthy (src img) = false))
            /\ large_enough (sample_world page_cats http_ok) img.
Proof.
  apply (scrape_all_images_sound (sample_world page_cats http_ok) page_cats); reflexivity.
Defined.

(** X4: on any page the extractor has exactly two outcomes.  Either every
    element with a usable URL has readable dimensions, and the kept URLs are
    returned; or some such element has a width or height that [int]
    rejects, and HTTP 500 "Failed to scrape images" is raised.  When the
    browser cannot list the elements the same exception is raised. *)
Theorem scrape_all_images_outcome (w : World) :
  match find_elements w with
  | Ok images =>
      ((forall img, img ∈ images -> has_candidate_url img ->
                    readable w (width img) /\ readable w (height img))
       /\ scrape_all_images w = Ok (extractor_spec w images))
      \/ ((exists img, img ∈ images /\ has_candidate_url img /\
                       (unparseable w (width img) \/ unparseable w (height img)))
          /\ scrape_all_images w = Raise (HTTPException 500 "Failed to scrape images"))
  | Raise _ => scrape_all_images w = Raise (HTTPException 500 "Failed to scrape images")
  end.
Proof.
  unfold scrape_all_images. destruct (find_elements w) as [images|e]; [|done]. simpl.
  destruct (scrape_loop w images []) as [urls|e] eqn:Hl.
  - left. assert (forall img, img ∈ images -> has_candidate_url img ->
                    readable w (width img) /\ readable w (height img)) as Hr.
    { intros img Hin Hu. by eapply scrape_loop_ok_readable. }
    split; [done|]. rewrite scrape_loop_spec in Hl by done. by injection Hl as <-.
  - right. split; [by eapply scrape_loop_raise_inv|done].
Qed.

(** ** Footprint calculus *)

Section Preserves.
Context (R : State -> State -> Prop) `{!PreOrder R}.

Lemma preserves_ret {A} (a : A) : preserves R (ret a).
Proof. intros st. simpl. reflexivity. Qed.

Lemma preserves_raise {A} e : preserves R (@raise A e).
Proof. intros st. simpl. reflexivity. Qed.

Lemma preserves_lift {A} (r : result A) : preserves R (lift r).
Proof. intros st. simpl. reflexivity. Qed.

Lemma preserves_bind {A B} (m : M A) (k : A -> M B) :
  preserves R m -> (forall a, preserves R (k a)) -> preserves R (bind m k).
Proof.
  intros Hm Hk st. unfold bind. specialize (Hm st).
  destruct (m st) as [[a|e] st']; simpl in *; [|done].
  etransitivity; [exact Hm|apply Hk].
Qed.

Lemma preserves_try_except {A} (m : M A) h :
  preserves R m -> (forall e, preserves R (h e)) -> preserves R (try_except m h).
Proof.
  intros Hm Hh st. unfold try_except. specialize (Hm st).
  destruct (m st) as [[a|e] st']; simpl in *; [done|].
  etransitivity; [exact Hm|apply Hh].
Qed.
End Preserves.

#[local] Instance same_drivers_preorder : PreOrder same_drivers.
Proof. split; [done|]. intros a b c Hab Hbc. unfold same_drivers in *. congruence. Qed.

#[local] Instance same_files_preorder : PreOrder same_files.
Proof. split; [done|]. intros a b c Hab Hbc. unfold same_files in *. congruence. Qed.

#[local] Instance same_gets_preorder : PreOrder same_gets.
Proof. split; [done|]. intros a b c Hab Hbc. unfold same_gets in *. congruence. Qed.

#[local] Instance files_outside_preorder P : PreOrder (files_outside P).
Proof.
  split; [done|]. intros a b c Hab Hbc p Hp. by rewrite Hbc, Hab.
Qed.

#[local] Instance jobs_only_preorder job_id : PreOrder (jobs_only job_id).
Proof.
  split; [done|]. intros a b c Hab Hbc p Hp. by rewrite Hbc, Hab.
Qed.

Lemma preserves_files_outside {A} P (m : M A) :
  preserves same_files m -> preserves (files_outside P) m.
Proof. intros H st p _. by rewrite (H st). Qed.

Lemma preserves_jobs_only {A} job_id (m : M A) :
  keeps_jobs m -> preserves (jobs_only job_id) m.
Proof. intros H st p _. by rewrite (H st). Qed.

Lemma gets_within_same {A} (m : M A) : preserves same_gets m -> gets_within 0 m.
Proof. intros H st. rewrite (H st). lia. Qed.

Lemma gets_within_weaken {A} n n' (m : M A) :
  n <= n' -> gets_within n m -> gets_within n' m.
Proof. intros Hn H st. specialize (H st). lia. Qed.

Lemma gets_within_bind {A B} a b (m : M A) (k : A -> M B) :
  gets_within a m -> (forall x, gets_within b (k x)) -> gets_within (a + b) (bind m k).
Proof.
  intros Hm Hk st. unfold bind. specialize (Hm st).
  destruct (m st) as [[x|e] st']; simpl in *; [|lia].
  specialize (Hk x st'). lia.
Qed.

Lemma gets_within_try_except {A} a b (m : M A) h :
  gets_within a m -> (forall e, gets_within b (h e)) ->
  gets_within (a + b) (try_except m h).
Proof.
  intros Hm Hh st. unfold try_except. specialize (Hm st).
  destruct (m st) as [[x|e] st']; simpl in *; [lia|].
  specialize (Hh e st'). lia.
Qed.

(** *** The fetcher's primitives *)

Lemma write_file_footprint w p data :
  preserves same_drivers (write_file w p data)
  /\ preserves same_gets (write_file w p data)
  /\ preserves (files_outside (eq p)) (write_file w p data).
Proof.
  unfold write_file, bind, lift.
  split; [|split]; intros st; destruct (open_wb w p); try done.
  intros q Hq. simpl. by rewrite lookup_insert_ne.
Qed.

Lemma fetch_attempts_footprint w image_url file_path n :
  preserves same_drivers (fetch_attempts w image_url file_path n)
  /\ preserves (files_outside (eq file_path)) (fetch_attempts w image_url file_path n)
  /\ gets_within n (fetch_attempts w image_url file_path n).
Proof.
  induction n as [|n (IHd & IHf & IHg)]; simpl.
  - split; [apply preserves_ret; apply _|].
    split; [apply preserves_ret; apply _|]. apply gets_within_same, preserves_ret. apply _.
  - split; [|split].
    + apply preserves_bind; [apply _|done|]. intros r.
      destruct (_ =? _)%Z; [apply write_file_footprint|done].
    + apply preserves_bind; [apply _|done|]. intros r.
      destruct (_ =? _)%Z; [apply write_file_footprint|done].
    + apply (gets_within_bind 1 n); [intros st; simpl; lia|]. intros r.
      destruct (_ =? _)%Z; [|done].
      eapply gets_within_weaken; [|apply gets_within_same, write_file_footprint]. lia.
Qed.

Lemma save_image_inline w image_url folder_path file_name n st :
  startswith "data:image/" image_url = true ->
  save_image w image_url folder_path file_name n st
  = try_except
      (match split_once "," image_url with
       | Some (_, encoded) =>
           let* image_data := lift (b64decode w encoded) in
           write_file w (image_path folder_path file_name) image_data
       | None => raise (Exception "not enough values to unpack (expected 2, got 1)")
       end)
      (fun e => raise (HTTPException 500 ("Failed to save image: " +:+ str_exn w e))) st.
Proof.
  intros H. unfold save_image, image_path. rewrite H.
  by destruct (split_once "," image_url) as [[h enc]|].
Qed.

Ltac footprint_cases :=
  split_and!; try done; try lia;
  try (intros ? [= <-]; first [by eauto | by eexists (Exception _)]);
  try (intros p Hp;
       match goal with H : forall q, _ -> files _ !! q = _ |- _ => apply H end;
       unfold image_path in *; congruence).

Lemma save_image_effects (w : World) (image_url folder_path file_name : string)
    (retry_count : nat) (st : State) :
  let r := save_image w image_url folder_path file_name retry_count st in
  job_statuses (snd r) = job_statuses st
  /\ drivers (snd r) = drivers st
  /\ gets st <= gets (snd r) <= gets st + retry_count
  /\ (startswith "data:image/" image_url = true -> gets (snd r) = gets st)
  /\ (forall p, p <> image_path folder_path file_name ->
        files (snd r) !! p = files st !! p)
  /\ (forall e, fst r = Raise e ->
        exists cause, e = HTTPException 500 ("Failed to save image: " +:+ str_exn w cause)).
Proof.
  intros r. subst r. split; [apply keeps_jobs_save_image|].
  destruct (startswith "data:image/" image_url) eqn:Hs.
  - rewrite save_image_inline by done. unfold try_except, bind, lift, raise.
    destruct (split_once "," image_url) as [[h enc]|]; simpl; [|footprint_cases].
    destruct (b64decode w enc) as [data|e]; simpl; [|footprint_cases].
    destruct (write_file_footprint w (image_path folder_path file_name) data)
      as (Hd & Hg & Hf).
    specialize (Hd st). specialize (Hg st). specialize (Hf st).
    unfold same_drivers, same_gets, files_outside in *.
    destruct (write_file w _ data st) as [[[]|e] st']; simpl in *;
      rewrite Hd, Hg; footprint_cases.
  - rewrite save_image_remote by done. unfold try_except, raise.
    destruct (fetch_attempts_footprint w image_url
                (os_path_join folder_path (file_name +:+ ".jpg")) retry_count)
      as (Hd & Hf & Hg).
    specialize (Hd st). specialize (Hg st). specialize (Hf st).
    unfold same_drivers, files_outside in *.
    destruct (fetch_attempts w image_url _ retry_count st) as [[[]|e] st']; simpl in *;
      footprint_cases.
Qed.

(** X5: the footprint of [save_image], whatever the network, the decoder and
    the disk do.  It leaves the job table and the browser sessions alone,
    issues at most [retry_count] GETs (none at all for a [data:image/] URL),
    changes no file other than [<folder_path>/<file_name>.jpg], and the only
    exception it lets out is HTTP 500 "Failed to save image: ...". *)
Theorem save_image_footprint (w : World) (image_url folder_path file_name : string)
    (retry_count : nat) (st : State) :
  let r := save_image w image_url folder_path file_name retry_count st in
  job_statuses (snd r) = job_statuses st
  /\ drivers (snd r) = drivers st
  /\ gets st <= gets (snd r) <= gets st + retry_count
  /\ (startswith "data:image/" image_url = true -> gets (snd r) = gets st)
  /\ (forall p, p <> image_path folder_path file_name ->
        files (snd r) !! p = files st !! p)
  /\ (forall e, fst r = Raise e ->
        exists cause, e = HTTPException 500 ("Failed to save image: " +:+ str_exn w cause)).
Proof. apply save_image_effects. Qed.

Lemma save_image_preserves w image_url folder_path file_name retry_count :
  preserves same_drivers (save_image w image_url folder_path file_name retry_count)
  /\ preserves (files_outside (eq (image_path folder_path file_name)))
       (save_image w image_url folder_path file_name retry_count)
  /\ gets_within retry_count (save_image w image_url folder_path file_name retry_count).
Proof.
  split_and!; intros st;
    destruct (save_image_effects w image_url folder_path file_name retry_count st)
      as (_ & Hd & Hg & _ & Hf & _); try done.
  intros p Hp. apply Hf. congruence.
Qed.

Lemma prefix_app p a b : String.prefix p a = true -> String.prefix p (a +:+ b) = true.
Proof.
  revert a. induction p as [|c p IH]; intros a.
  { intros _. by destruct (a +:+ b). }
  destruct a as [|c' a]; simpl; [done|].
  destruct (ascii_dec c c'); [apply IH|done].
Qed.

Lemma split_once_app c h t :
  split_once c h = None -> split_once c (h +:+ String c t) = Some (h, t).
Proof.
  induction h as [|a h IH]; simpl.
  - intros _. by rewrite Ascii.eqb_refl.
  - destruct (Ascii.eqb a c); [done|].
    destruct (split_once c h) as [[]|]; [done|]. intros _. by rewrite IH.
Qed.

(** X6: an inline image is written as decoded.  For a URL made of a header
    that starts with "data:image/" and has no comma, a comma, and a payload
    that [b64decode] accepts, [save_image] decodes exactly the text after
    the first comma, issues no GET, and leaves the decoded bytes in
    [<folder_path>/<file_name>.jpg]. *)
Theorem save_image_inline_roundtrip (w : World)
    (header payload folder_path file_name : string) (retry_count : nat)
    (data : bytes) (st : State) :
  startswith "data:image/" header = true ->
  split_once "," header = None ->
  b64decode w payload = Ok data ->
  open_wb w (image_path folder_path file_name) = Ok tt ->
  let r := save_image w (header +:+ "," +:+ payload) folder_path file_name retry_count st in
  r = (Ok tt, set_files (insert (image_path folder_path file_name) data) st)
  /\ files (snd r) !! image_path folder_path file_name = Some data
  /\ gets (snd r) = gets st.
Proof.
  intros Hs Hc Hd Ho r.
  assert (r = (Ok tt, set_files (insert (image_path folder_path file_name) data) st)) as ->.
  { subst r. rewrite save_image_inline by (by apply prefix_app).
    change ("," +:+ payload) with (String "," payload).
    rewrite (split_once_app _ _ _ Hc). unfold try_except, bind, lift.
    rewrite Hd. unfold write_file, bind, lift. by rewrite Ho. }
  split; [done|]. simpl. by rewrite lookup_insert_eq.
Qed.

Lemma save_image_inline_roundtrip_witness :
  files (snd (save_image (sample_world [] http_404) "data:image/png;base64,QUJD"
                "GoogleSearchImages/out" "cats_1" 3 init_state))
    !! "GoogleSearchImages/out/cats_1.jpg"
  = Some [Byte.x41; Byte.x42; Byte.x43].
Proof.
  apply (save_image_inline_roundtrip (sample_world [] http_404)
           "data:image/png;base64" "QUJD" "GoogleSearchImages/out" "cats_1" 3
           [Byte.x41; Byte.x42; Byte.x43] init_state); reflexivity.
Defined.

(** X7: a malformed inline image is fatal at once and without side effect.
    When a "data:image/" URL has no comma, or the text after its first
    comma is rejected by [b64decode], [save_image] raises and the state is
    exactly what it was: no retry, no GET, no file. *)
Theorem save_image_inline_fatal (w : World) (image_url folder_path file_name : string)
    (retry_count : nat) (st : State) :
  startswith "data:image/" image_url = true ->
  match split_once "," image_url with
  | Some (_, encoded) => is_ok (b64decode w encoded) = false
  | None => True
  end ->
  let r := save_image w image_url folder_path file_name retry_count st in
  is_ok (fst r) = false /\ snd r = st.
Proof.
  intros Hs Hbad r. subst r. rewrite save_image_inline by done.
  unfold try_except, bind, lift, raise.
  destruct (split_once "," image_url) as [[h enc]|]; [|done].
  by destruct (b64decode w enc).
Qed.

Lemma save_image_inline_fatal_witness :
  let r := save_image (sample_world [] http_ok) "data:image/png;base64"
             "GoogleSearchImages/out" "cats_1" 3 (st_created 3) in
  is_ok (fst r) = false /\ snd r = st_created 3.
Proof.
  apply (save_image_inline_fatal (sample_world [] http_ok) "data:image/png;base64"
           "GoogleSearchImages/out" "cats_1" 3 (st_created 3)); [reflexivity|exact I].
Defined.

Lemma fetch_attempts_succeeds w image_url file_path n : forall k resp st,
  k < n ->
  (forall i, i < k -> not_success w image_url (gets st + i)) ->
  requests_get w (gets st + k) image_url = Ok resp ->
  status_code resp = 200%Z ->
  open_wb w file_path = Ok tt ->
  fetch_attempts w image_url file_path n st
  = (Ok tt, set_files (insert file_path (content resp)) (add_gets (S k) st)).
Proof.
  induction n as [|n IH]; intros k resp st Hk Hbefore Hget Hcode Hopen; [lia|]. simpl.
  unfold bind, http_get. destruct k as [|k].
  - rewrite Nat.add_0_r in Hget. rewrite Hget, Hcode. simpl.
    unfold write_file, bind, lift. rewrite Hopen.
    unfold add_gets, set_gets, set_files. simpl. do 2 f_equal. lia.
  - destruct (Hbefore 0) as (r & Hr & Hc); [lia|]. rewrite Nat.add_0_r in Hr. rewrite Hr.
    apply Z.eqb_neq in Hc. rewrite Hc. rewrite (IH k resp); [|lia| | |done|done].
    + by rewrite add_gets_S.
    + intros i Hi. simpl. rewrite <- Nat.add_succ_r. apply Hbefore. lia.
    + simpl. by rewrite <- Nat.add_succ_r.
Qed.

(** X8: a retry that succeeds.  For a remote URL, when the first [k]
    attempts return non-200 responses and attempt [k+1] (within
    [retry_count]) returns 200, [save_image] returns normally after exactly
    [k+1] GETs and the file holds the body of that last response. *)
Theorem save_image_retry_succeeds (w : World) (image_url folder_path file_name : string)
    (retry_count k : nat) (resp : Response) (st : State) :
  startswith "data:image/" image_url = false ->
  k < retry_count ->
  (forall i, i < k -> not_success w image_url (gets st + i)) ->
  requests_get w (gets st + k) image_url = Ok resp ->
  status_code resp = 200%Z ->
  open_wb w (image_path folder_path file_name) = Ok tt ->
  save_image w image_url folder_path file_name retry_count st
  = (Ok tt, set_files (insert (image_path folder_path file_name) (content resp))
              (add_gets (S k) st)).
Proof.
  intros Hs Hk Hbefore Hget Hcode Hopen. rewrite save_image_remote by done.
  unfold try_except. fold (image_path folder_path file_name).
  by rewrite (fetch_attempts_succeeds _ _ _ _ k resp).
Qed.

Lemma save_image_retry_succeeds_witness :
  save_image (sample_world [] http_503_then_ok) "http://img.example/1.jpg"
    "GoogleSearchImages/out" "cats_1" 3 (st_created 3)
  = (Ok tt, set_files (insert "GoogleSearchImages/out/cats_1.jpg" [Byte.xff; Byte.xd8])
              (add_gets 3 (st_created 3))).
Proof.
  apply (save_image_retry_succeeds (sample_world [] http_503_then_ok)
           "http://img.example/1.jpg" "GoogleSearchImages/out" "cats_1" 3 2
           {| status_code := 200; content := [Byte.xff; Byte.xd8] |} (st_created 3)
           eq_refl ltac:(lia)
           ltac:(intros i Hi; exists {| status_code := 503; content := [] |};
                 destruct i as [|[|i]]; [split; [reflexivity|discriminate] ..|lia])
           eq_refl eq_refl eq_refl).
Defined.

(** ** The pipeline as a whole *)

#[local] Instance job_evolves_preorder : PreOrder job_evolves.
Proof.
  split; [done|]. intros a b c (?&?&?) (?&?&?). unfold job_evolves.
  split; [congruence|]. split; [congruence|]. auto.
Qed.

#[local] Instance jobs_evolve_preorder : PreOrder jobs_evolve.
Proof.
  split.
  - intros st id j Hj. exists j. done.
  - intros a b c Hab Hbc id j Hj. destruct (Hab _ _ Hj) as (j' & Hj' & E').
    destruct (Hbc _ _ Hj') as (j'' & Hj'' & E''). exists j''. split; [done|].
    by etransitivity.
Qed.

Lemma preserves_jobs_evolve {A} (m : M A) : keeps_jobs m -> preserves jobs_evolve m.
Proof. intros H st id j Hj. exists j. by rewrite (H st). Qed.

Lemma update_job_footprint job_id f :
  preserves (jobs_only job_id) (update_job job_id f)
  /\ preserves same_drivers (update_job job_id f)
  /\ preserves same_files (update_job job_id f)
  /\ preserves same_gets (update_job job_id f)
  /\ ((forall j, job_evolves j (f j)) -> preserves jobs_evolve (update_job job_id f)).
Proof.
  unfold update_job. split_and!; intros; intros st;
    destruct (job_statuses st !! job_id) as [j|] eqn:Hj; simpl; try done.
  - intros other Hne. simpl. by rewrite lookup_insert_ne.
  - intros id k Hk. simpl. destruct (decide (job_id = id)) as [<-|Hne].
    + rewrite lookup_insert_eq. exists (f j). split; [done|]. by simplify_eq.
    + rewrite lookup_insert_ne by done. by exists k.
Qed.

Lemma job_evolves_with_status s j : s <> "pending" -> job_evolves j (with_status s j).
Proof. done. Qed.

Lemma job_evolves_with_images_scraped n j : job_evolves j (with_images_scraped n j).
Proof. done. Qed.

Lemma on_error_footprint w job_id e :
  preserves (jobs_only job_id) (on_error w job_id e)
  /\ preserves same_drivers (on_error w job_id e)
  /\ preserves same_files (on_error w job_id e)
  /\ preserves same_gets (on_error w job_id e)
  /\ preserves jobs_evolve (on_error w job_id e).
Proof.
  destruct (update_job_footprint job_id (with_status "failed")) as (H1&H2&H3&H4&H5).
  unfold on_error.
  split_and!; (apply preserves_bind; [apply _| |intros; apply preserves_raise; apply _]);
    try done.
  apply H5. intros j. by apply job_evolves_with_status.
Qed.

Lemma loop_body_jobs w job_id search_term folder_path index image_url :
  preserves (jobs_only job_id) (loop_body w job_id search_term folder_path index image_url)
  /\ preserves jobs_evolve (loop_body w job_id search_term folder_path index image_url).
Proof.
  destruct (update_job_footprint job_id (with_images_scraped index)) as (H1&_&_&_&H5).
  split; intros st; unfold loop_body; destruct (job_statuses st !! job_id); try done.
  - apply (preserves_bind (jobs_only job_id)); [|done].
    apply preserves_jobs_only, keeps_jobs_save_image.
  - apply (preserves_bind jobs_evolve).
    + apply preserves_jobs_evolve, keeps_jobs_save_image.
    + intros _. apply H5. apply job_evolves_with_images_scraped.
Qed.

Lemma for_images_jobs w job_id search_term folder_path image_urls : forall index,
  preserves (jobs_only job_id) (for_images w job_id search_term folder_path index image_urls)
  /\ preserves jobs_evolve (for_images w job_id search_term folder_path index image_urls).
Proof.
  induction image_urls as [|u rest IH]; intros index; simpl.
  - split; apply preserves_ret; apply _.
  - destruct (loop_body_jobs w job_id search_term folder_path index u).
    split; (apply preserves_bind; [apply _|done|intros; apply IH]).
Qed.

Lemma finish_jobs w job_id driver :
  preserves (jobs_only job_id) (finish w job_id driver)
  /\ preserves jobs_evolve (finish w job_id driver).
Proof.
  destruct (update_job_footprint job_id (with_status "completed")) as (H1&_&_&_&H5).
  unfold finish. split; (apply preserves_bind; [apply _| |intros]).
  - done.
  - apply preserves_jobs_only, keeps_jobs_quit.
  - apply H5. intros j. by apply job_evolves_with_status.
  - apply preserves_jobs_evolve, keeps_jobs_quit.
Qed.

Lemma scrape_images_task_jobs w job_id search_term num_images folder_path :
  preserves (jobs_only job_id)
    (scrape_images_task w job_id search_term num_images folder_path)
  /\ preserves jobs_evolve
       (scrape_images_task w job_id search_term num_images folder_path).
Proof.
  unfold scrape_images_task.
  split; (apply preserves_try_except; [apply _| |intros e; apply on_error_footprint]).
  - apply preserves_bind; [apply _| |].
    + apply preserves_jobs_only, keeps_jobs_prelude.
    + intros [d urls]. apply preserves_bind; [apply _| |intros].
      * apply for_images_jobs.
      * apply finish_jobs.
  - apply preserves_bind; [apply _| |].
    + apply preserves_jobs_evolve, keeps_jobs_prelude.
    + intros [d urls]. apply preserves_bind; [apply _| |intros].
      * apply for_images_jobs.
      * apply finish_jobs.
Qed.

(** X9: a pipeline run touches no record but its own job's, whatever
    happens in it; and no record, its own included, is ever removed, has its
    requested count or folder changed, or goes from another status back to
    "pending". *)
Theorem scrape_images_task_isolated (w : World) (job_id search_term : string)
    (num_images : option Z) (folder_path : string) (st : State) :
  let st' := snd (scrape_images_task w job_id search_term num_images folder_path st) in
  jobs_only job_id st st' /\ jobs_evolve st st'.
Proof.
  destruct (scrape_images_task_jobs w job_id search_term num_images folder_path) as [H1 H2].
  split; [apply H1|apply H2].
Qed.

Lemma prelude_candidates w search_term num_images st driver image_urls st' :
  prelude w search_term num_images st = (Ok (driver, image_urls), st') ->
  image_urls = candidates w num_images.
Proof.
  unfold prelude, candidates, bind, lift, ret.
  destruct (create_driver w st) as [[d|e] st1]; [|done].
  destruct (driver_get w _); [|done]. destruct (scroll_down w 5); [|done].
  destruct (scrape_all_images w) as [urls|]; [|done].
  by intros [= _ <- _].
Qed.

(** A loop that runs to its end leaves the ordinal of the last candidate in
    [images_scraped] and nothing else changed in the record. *)
Lemma for_images_ok w job_id search_term folder_path image_urls :
  forall index st st' j,
    for_images w job_id search_term folder_path index image_urls st = (Ok tt, st') ->
    job_statuses st !! job_id = Some j ->
    job_statuses st' !! job_id
    = Some (match image_urls with
            | [] => j
            | _ => with_images_scraped (index + Z.of_nat (length image_urls) - 1) j
            end).
Proof.
  induction image_urls as [|u rest IH]; intros index st st' j Hrun Hj.
  - by injection Hrun as <-.
  - cbn [for_images] in Hrun. unfold bind at 1 in Hrun.
    destruct (loop_body w job_id search_term folder_path index u st)
      as [[[]|e] st1] eqn:Hbody; [|done].
    unfold loop_body, bind in Hbody. rewrite Hj in Hbody.
    pose proof (keeps_jobs_save_image w u folder_path
                  (search_term +:+ "_" +:+ pretty index) 3 st) as Hk.
    destruct (save_image w u folder_path _ 3 st) as [[[]|e] st0]; [|done].
    simpl in Hk. rewrite <- Hk in Hj. rewrite (update_job_present _ _ _ _ Hj) in Hbody.
    injection Hbody as <-.
    rewrite (IH _ _ _ (with_images_scraped index j) Hrun);
      [|simpl; by rewrite lookup_insert_eq].
    f_equal. destruct rest as [|u' rest']; unfold with_images_scraped; simpl; f_equal; lia.
Qed.

Lemma body_jobs_evolve w job_id search_term folder_path driver image_urls :
  preserves jobs_evolve
    (let* _ := for_images w job_id search_term folder_path 1 image_urls in
     finish w job_id driver).
Proof.
  apply preserves_bind; [apply _| |intros].
  - apply for_images_jobs.
  - apply finish_jobs.
Qed.

Lemma scrape_images_task_ends (w : World) (job_id search_term : string)
    (num_images : option Z) (folder : string) (st : State) (j : Job) :
  job_statuses st !! job_id = Some j ->
  let r := scrape_images_task w job_id search_term num_images folder st in
  match fst r with
  | Ok _ =>
      job_statuses (snd r) !! job_id
      = Some (with_status "completed"
                (match candidates w num_images with
                 | [] => j
                 | l => with_images_scraped (Z.of_nat (length l)) j
                 end))
  | Raise e =>
      (exists cause, e = HTTPException 500 ("Scraping task failed: " +:+ str_exn w cause))
      /\ exists j', job_statuses (snd r) !! job_id = Some j'
           /\ status j' = "failed"
           /\ total_images j' = total_images j
           /\ folder_path j' = folder_path j
  end.
Proof.
  intros Hj r. subst r. rewrite scrape_images_task_unfold.
  pose proof (keeps_jobs_prelude w search_term num_images st) as Hk.
  destruct (prelude w search_term num_images st) as [[[d urls]|e] st1] eqn:Hp;
    simpl in Hk; rewrite <- Hk in Hj.
  - apply prelude_candidates in Hp as ->. unfold try_except.
    pose proof (body_jobs_evolve w job_id search_term folder d
                  (candidates w num_images) st1) as Hev.
    destruct (bind _ _ st1) as [[[]|e] st2] eqn:Hb; simpl in Hev.
    + simpl. unfold bind in Hb.
      destruct (for_images w job_id search_term folder 1 (candidates w num_images) st1)
        as [[[]|e] st1'] eqn:Hf; [|done].
      pose proof (for_images_ok _ _ _ _ _ _ _ _ _ Hf Hj) as Hj'.
      unfold finish, bind in Hb. rewrite (update_job_present _ _ _ _ Hj') in Hb.
      match type of Hb with context [quit w d ?s] =>
        pose proof (keeps_jobs_quit w d s) as Hq; destruct (quit w d s) as [[[]|e] st3]
      end; [|done].
      injection Hb as <-. simpl in Hq. rewrite Hq. rewrite lookup_insert_eq.
      do 2 f_equal. destruct (candidates w num_images); [done|].
      f_equal. cbn [length]. lia.
    + destruct (Hev _ _ Hj) as (j2 & Hj2 & Ht & Hf & _).
      rewrite (on_error_present _ _ _ _ Hj2). simpl. split; [eauto|].
      exists (with_status "failed" j2). by rewrite lookup_insert_eq.
  - rewrite (on_error_present _ _ _ _ Hj). simpl. split; [eauto|].
    exists (with_status "failed" j). by rewrite lookup_insert_eq.
Qed.

(** X10: how a pipeline run ends for a job that is in the table.  If the
    task returns, the record is "completed" and [images_scraped] is the
    number of candidates visited (left as it was when there were none); if
    it raises, the record is "failed" and the exception is HTTP 500
    "Scraping task failed: ...".  Either way the requested count and the
    folder are those of the record before. *)
Theorem scrape_images_task_outcome (w : World) (job_id search_term : string)
    (num_images : option Z) (folder : string) (st : State) (j : Job) :
  job_statuses st !! job_id = Some j ->
  let r := scrape_images_task w job_id search_term num_images folder st in
  match fst r with
  | Ok _ =>
      job_statuses (snd r) !! job_id
      = Some (with_status "completed"
                (match candidates w num_images with
                 | [] => j
                 | l => with_images_scraped (Z.of_nat (length l)) j
                 end))
  | Raise e =>
      (exists cause, e = HTTPException 500 ("Scraping task failed: " +:+ str_exn w cause))
      /\ exists j', job_statuses (snd r) !! job_id = Some j'
           /\ status j' = "failed"
           /\ total_images j' = total_images j
           /\ folder_path j' = folder_path j
  end.
Proof. apply scrape_images_task_ends. Qed.

Lemma scrape_images_task_outcome_witness :
  job_statuses st_finished !! "job-1"
  = Some {| status := "completed"; images_scraped := 2; total_images := Some 3%Z;
            folder_path := "GoogleSearchImages/out" |}.
Proof.
  apply (scrape_images_task_outcome (sample_world page_cats http_ok) "job-1" "cats" (Some 3%Z)
           "GoogleSearchImages/out" (st_created 3)
           {| status := "pending"; images_scraped := 0; total_images := Some 3%Z;
              folder_path := "GoogleSearchImages/out" |}).
  vm_compute. reflexivity.
Defined.

Lemma for_images_absent w job_id search_term folder_path image_urls : forall index st,
  job_statuses st !! job_id = None ->
  for_images w job_id search_term folder_path index image_urls st = (Ok tt, st).
Proof.
  induction image_urls as [|u rest IH]; intros index st Hn; [done|].
  cbn [for_images]. unfold bind at 1, loop_body. rewrite Hn. by apply IH.
Qed.

Lemma prelude_footprint w search_term num_images :
  preserves same_files (prelude w search_term num_images)
  /\ preserves same_gets (prelude w search_term num_images).
Proof.
  unfold prelude.
  split; (apply preserves_bind; [apply _| |intros d;
          repeat (apply preserves_bind; [apply _|apply preserves_lift; apply _|intros]);
          apply preserves_ret; apply _]);
    unfold create_driver;
    (apply preserves_try_except; [apply _| |intros; apply preserves_raise; apply _]);
    (apply preserves_bind; [apply _|apply preserves_lift; apply _|by intros ? ?]).
Qed.

(** X11: a pipeline started for an id that is not in the table.  The loop
    skips every candidate (no GET, no file), then both the final status
    write and the handler's status write fail on the missing key: the task
    ends with that [KeyError], not with an HTTP exception, and the table is
    what it was. *)
Theorem scrape_images_task_unknown_job (w : World) (job_id search_term : string)
    (num_images : option Z) (folder_path : string) (st : State) :
  job_statuses st !! job_id = None ->
  let r := scrape_images_task w job_id search_term num_images folder_path st in
  fst r = Raise (KeyError job_id)
  /\ job_statuses (snd r) = job_statuses st
  /\ files (snd r) = files st
  /\ gets (snd r) = gets st.
Proof.
  intros Hn r. subst r. rewrite scrape_images_task_unfold.
  pose proof (keeps_jobs_prelude w search_term num_images st) as Hk.
  destruct (prelude_footprint w search_term num_images) as [Hf Hg].
  specialize (Hf st). specialize (Hg st). unfold same_files, same_gets in *.
  destruct (prelude w search_term num_images st) as [[[d urls]|e] st1];
    simpl in *; rewrite <- Hk in Hn.
  - unfold try_except, bind. rewrite for_images_absent by done.
    unfold finish, on_error, bind, update_job. by repeat (rewrite Hn; simpl).
  - unfold on_error, bind, update_job. by rewrite Hn.
Qed.

Lemma scrape_images_task_unknown_job_witness :
  fst (scrape_images_task (sample_world page_cats http_ok) "job-9" "cats" (Some 3%Z)
         "GoogleSearchImages/out" (st_created 3))
  = Raise (KeyError "job-9").
Proof.
  apply (scrape_images_task_unknown_job (sample_world page_cats http_ok) "job-9" "cats" (Some 3%Z)
           "GoogleSearchImages/out" (st_created 3)).
  vm_compute. reflexivity.
Defined.

(** *** Sessions, requests and files of a run *)

Lemma files_outside_weaken (P Q : string -> Prop) st st' :
  (forall p, P p -> Q p) -> files_outside P st st' -> files_outside Q st st'.
Proof. intros HPQ H p Hp. apply H. auto. Qed.

Lemma loop_body_footprint w job_id search_term folder_path index image_url :
  preserves same_drivers (loop_body w job_id search_term folder_path index image_url)
  /\ preserves (files_outside (eq (output_path folder_path search_term index)))
       (loop_body w job_id search_term folder_path index image_url)
  /\ gets_within 3 (loop_body w job_id search_term folder_path index image_url).
Proof.
  destruct (update_job_footprint job_id (with_images_scraped index)) as (_&Hd&Hf&Hg&_).
  destruct (save_image_preserves w image_url folder_path
              (search_term +:+ "_" +:+ pretty index) 3) as (Sd & Sf & Sg).
  split_and!; intros st; unfold loop_body; destruct (job_statuses st !! job_id);
    try done; try (simpl; lia).
  - by apply (preserves_bind same_drivers).
  - apply (preserves_bind (files_outside _)); [done|]. intros _.
    by apply preserves_files_outside.
  - apply (gets_within_bind 3 0); [done|]. intros _. by apply gets_within_same.
Qed.

Lemma for_images_footprint w job_id search_term folder_path image_urls : forall index,
  preserves same_drivers (for_images w job_id search_term folder_path index image_urls)
  /\ (forall st,
        files_outside
          (is_output folder_path search_term index (index + Z.of_nat (length image_urls)))
          st (snd (for_images w job_id search_term folder_path index image_urls st)))
  /\ gets_within (3 * length image_urls)
       (for_images w job_id search_term folder_path index image_urls).
Proof.
  induction image_urls as [|u rest IH]; intros index.
  - split_and!; intros st; simpl; try done. lia.
  - destruct (loop_body_footprint w job_id search_term folder_path index u) as (Ld&Lf&Lg).
    destruct (IH (index + 1)%Z) as (Id & If & Ig). cbn [for_images length].
    split_and!.
    + by apply (preserves_bind same_drivers).
    + intros st. unfold bind. specialize (Lf st).
      destruct (loop_body w job_id search_term folder_path index u st) as [[[]|e] st1];
        simpl in *.
      * etransitivity.
        -- eapply files_outside_weaken; [|exact Lf]. intros p <-. exists index.
           split; [lia|done].
        -- eapply files_outside_weaken; [|apply If]. intros p (i & Hi & ->).
           exists i. split; [lia|done].
      * eapply files_outside_weaken; [|exact Lf]. intros p <-. exists index.
        split; [lia|done].
    + eapply gets_within_weaken; [|apply (gets_within_bind 3 (3 * length rest))]; [lia|done|done].
Qed.

Lemma quit_footprint w driver :
  preserves same_files (quit w driver) /\ preserves same_gets (quit w driver).
Proof. unfold quit, bind, lift. split; intros st; by destruct (driver_quit w). Qed.

Lemma finish_footprint w job_id driver :
  preserves same_files (finish w job_id driver)
  /\ preserves same_gets (finish w job_id driver).
Proof.
  destruct (update_job_footprint job_id (with_status "completed")) as (_&_&Hf&Hg&_).
  destruct (quit_footprint w driver).
  unfold finish. split; by (apply preserves_bind; [apply _| |intros]).
Qed.

(** The session handle after the loop and the final steps. *)
Lemma finish_drivers w job_id driver st :
  let r := finish w job_id driver st in
  drivers (snd r) = if is_ok (fst r) then <[driver := false]> (drivers st) else drivers st.
Proof.
  unfold finish, bind, update_job, quit, lift.
  destruct (job_statuses st !! job_id); [|done]. by destruct (driver_quit w).
Qed.

Lemma prelude_drivers w search_term num_images st :
  match prelude w search_term num_images st with
  | (Ok (driver, _), st1) =>
      is_ok (webdriver_Chrome w) = true
      /\ driver = length (drivers st) /\ drivers st1 = drivers st ++ [true]
  | (Raise _, st1) =>
      drivers st1 = if is_ok (webdriver_Chrome w) then drivers st ++ [true] else drivers st
  end.
Proof.
  unfold prelude, create_driver, try_except, bind, lift, ret, raise.
  destruct (webdriver_Chrome w); simpl; [|done].
  destruct (driver_get w _); [|done]. destruct (scroll_down w 5); [|done].
  by destruct (scrape_all_images w).
Qed.

(** X12: what a pipeline run does to browser sessions.  When the browser
    cannot be started no session exists afterwards that did not exist
    before.  Otherwise the run adds exactly one session, and that session
    is closed if and only if the task returned normally: every run that
    raises after the browser started leaves its session alive. *)
Theorem scrape_images_task_session (w : World) (job_id search_term : string)
    (num_images : option Z) (folder_path : string) (st : State) :
  let r := scrape_images_task w job_id search_term num_images folder_path st in
  drivers (snd r)
  = if is_ok (webdriver_Chrome w)
    then drivers st ++ [negb (is_ok (fst r))]
    else drivers st.
Proof.
  intros r. subst r. rewrite scrape_images_task_unfold.
  pose proof (prelude_drivers w search_term num_images st) as Hp.
  destruct (prelude w search_term num_images st) as [[[d urls]|e] st1].
  - destruct Hp as (-> & -> & Hd1). unfold try_except, bind.
    destruct (for_images_footprint w job_id search_term folder_path urls 1) as (Fd & _).
    specialize (Fd st1). unfold same_drivers in Fd.
    destruct (for_images w job_id search_term folder_path 1 urls st1) as [[[]|e] st2];
      simpl in Fd.
    + pose proof (finish_drivers w job_id (length (drivers st)) st2) as Hf. simpl in Hf.
      destruct (finish w job_id (length (drivers st)) st2) as [[[]|e] st3]; simpl in *.
      * rewrite Hf, Fd, Hd1.
        rewrite <- (Nat.add_0_r (length (drivers st))). by rewrite insert_app_r.
      * destruct (on_error_footprint w job_id e) as (_ & Od & _).
        rewrite (Od st3), (on_error_raises job_id e st3), Hf, Fd, Hd1. done.
    + destruct (on_error_footprint w job_id e) as (_ & Od & _).
      rewrite (Od st2), (on_error_raises job_id e st2), Fd, Hd1. done.
  - destruct (on_error_footprint w job_id e) as (_ & Od & _).
    rewrite (Od st1), (on_error_raises job_id e st1), Hp.
    by destruct (is_ok (webdriver_Chrome w)).
Qed.

(** X13: the request budget of a run.  A pipeline issues at most three GETs
    per candidate it visits, hence at most [3 * num_images] when the
    requested count is not negative; the counter never goes down. *)
Theorem scrape_images_task_get_budget (w : World) (job_id search_term : string)
    (num_images : option Z) (folder_path : string) (st : State) :
  let r := scrape_images_task w job_id search_term num_images folder_path st in
  gets st <= gets (snd r) <= gets st + 3 * length (candidates w num_images)
  /\ (forall n, num_images = Some n -> (0 <= n)%Z ->
        gets (snd r) <= gets st + 3 * Z.to_nat n).
Proof.
  intros r. subst r.
  assert (gets st <= gets (snd (scrape_images_task w job_id search_term num_images
                                  folder_path st))
          <= gets st + 3 * length (candidates w num_images)) as Hmain.
  { rewrite scrape_images_task_unfold.
    destruct (prelude_footprint w search_term num_images) as [_ Pg].
    specialize (Pg st). unfold same_gets in Pg.
    destruct (prelude w search_term num_images st) as [[[d urls]|e] st1] eqn:Hp;
      simpl in Pg.
    - apply prelude_candidates in Hp as ->.
      assert (gets_within (3 * length (candidates w num_images) + 0)
                (try_except
                   (let* _ := for_images w job_id search_term folder_path 1
                                (candidates w num_images) in
                    finish w job_id d)
                   (on_error w job_id))) as Hw.
      { apply gets_within_try_except.
        - replace (3 * length (candidates w num_images))
            with (3 * length (candidates w num_images) + 0) by lia.
          apply gets_within_bind; [apply for_images_footprint|].
          intros _. apply gets_within_same, finish_footprint.
        - intros e. apply gets_within_same, on_error_footprint. }
      specialize (Hw st1). lia.
    - destruct (on_error_footprint w job_id e) as (_ & _ & _ & Og & _).
      rewrite (Og st1). lia. }
  split; [done|]. intros n -> Hn.
  assert (length (candidates w (Some n)) <= Z.to_nat n); [|lia].
  unfold candidates. destruct (scrape_all_images w) as [l|]; [|simpl; lia].
  pose proof (length_slice_to n l Hn). lia.
Qed.

Lemma scrape_images_task_get_budget_witness :
  gets (snd (scrape_images_task (sample_world page_cats http_404) "job-1" "cats" (Some 1%Z)
               "GoogleSearchImages/out" (st_created 1)))
  <= gets (st_created 1) + 3 * Z.to_nat 1.
Proof.
  apply (proj2 (scrape_images_task_get_budget (sample_world page_cats http_404)
                  "job-1" "cats" (Some 1%Z) "GoogleSearchImages/out" (st_created 1))
           1%Z eq_refl).
  lia.
Defined.

(** X14: the files of a run.  Whatever happens in it, a pipeline changes no
    file other than [<folder_path>/<search_term>_<i>.jpg] for an ordinal [i]
    between 1 and the number of candidates. *)
Theorem scrape_images_task_files (w : World) (job_id search_term : string)
    (num_images : option Z) (folder_path : string) (st : State) (p : string) :
  (forall i, (1 <= i <= Z.of_nat (length (candidates w num_images)))%Z ->
             p <> output_path folder_path search_term i) ->
  files (snd (scrape_images_task w job_id search_term num_images folder_path st)) !! p
  = files st !! p.
Proof.
  intros Hp. rewrite scrape_images_task_unfold.
  destruct (prelude_footprint w search_term num_images) as [Pf _].
  specialize (Pf st). unfold same_files in Pf.
  destruct (prelude w search_term num_images st) as [[[d urls]|e] st1] eqn:Hpre;
    simpl in Pf.
  - apply prelude_candidates in Hpre as ->. rewrite <- Pf.
    unfold try_except, bind.
    destruct (for_images_footprint w job_id search_term folder_path
                (candidates w num_images) 1) as (_ & Ff & _).
    specialize (Ff st1 p).
    assert (files (snd (for_images w job_id search_term folder_path 1
                          (candidates w num_images) st1)) !! p = files st1 !! p) as Hfor.
    { apply Ff. intros (i & Hi & ->). apply (Hp i); [lia|done]. }
    destruct (for_images w job_id search_term folder_path 1
                (candidates w num_images) st1) as [[[]|e] st2]; simpl in Hfor.
    + destruct (finish_footprint w job_id d) as [Nf _]. specialize (Nf st2).
      unfold same_files in Nf.
      destruct (finish w job_id d st2) as [[[]|e] st3]; simpl in *.
      * by rewrite Nf.
      * destruct (on_error_footprint w job_id e) as (_ & _ & Of & _).
        by rewrite (Of st3), Nf.
    + destruct (on_error_footprint w job_id e) as (_ & _ & Of & _). by rewrite (Of st2).
  - destruct (on_error_footprint w job_id e) as (_ & _ & Of & _). by rewrite (Of st1), Pf.
Qed.

Lemma scrape_images_task_files_witness :
  files st_finished !! "GoogleSearchImages/out/cats_3.jpg"
  = files (st_created 3) !! "GoogleSearchImages/out/cats_3.jpg".
Proof.
  apply (scrape_images_task_files (sample_world page_cats http_ok) "job-1" "cats" (Some 3%Z)
           "GoogleSearchImages/out" (st_created 3) "GoogleSearchImages/out/cats_3.jpg").
  intros i Hi. change (length (candidates (sample_world page_cats http_ok) (Some 3%Z))) with 2 in Hi.
  assert (i = 1 \/ i = 2)%Z as [->| ->] by lia; vm_compute; discriminate.
Defined.

(** ** Creating, polling and cancelling *)

Lemma start_scrape_folder_path w request :
  os_path_join "GoogleSearchImages"
    (match ScrapeRequest.folder_name request with
     | Some n => if String.eqb n "" then "scraped_images_" +:+ now w else n
     | None => "scraped_images_" +:+ now w
     end)
  = resolved_folder w request.
Proof.
  unfold resolved_folder. destruct (ScrapeRequest.folder_name request) as [n|]; [|done].
  destruct (String.eqb n ""); [done|]. unfold os_path_join. by destruct (startswith "/" n).
Qed.


(** X16: where the pictures go.  A non-empty folder name that starts with
    "/" is used as it is, outside [GoogleSearchImages]; any other non-empty
    name gives [GoogleSearchImages/<name>]; a missing or empty name gives
    [GoogleSearchImages/scraped_images_<timestamp>]. *)
Theorem start_scrape_folder (w : World) (request : ScrapeRequest.t) (st st' : State)
    (resp : ScrapeResponse.t) (t : Task) :
  start_scrape w request st = (Ok (resp, t), st') ->
  ScrapeResponse.folder_path resp
  = match ScrapeRequest.folder_name request with
    | None => "GoogleSearchImages/scraped_images_" +:+ now w
    | Some "" => "GoogleSearchImages/scraped_images_" +:+ now w
    | Some (String "/" _ as n) => n
    | Some n => "GoogleSearchImages/" +:+ n
    end.
Proof.
  unfold start_scrape, try_except, bind, lift, ret, raise.
  rewrite start_scrape_folder_path.
  destruct (makedirs w (resolved_folder w request)) as [[]|cause]; simpl; [|done].
  intros [= <- _ _]. simpl. unfold resolved_folder.
  destruct (ScrapeRequest.folder_name request) as [[|c n]|]; [done| |done].
  simpl. unfold startswith. simpl.
  destruct (ascii_dec "/" c) as [<-|Hne].
  - by destruct n.
  - by destruct c as [[] [] [] [] [] [] [] []].
Qed.

Lemma start_scrape_folder_witness :
  response_of (start_scrape (sample_world [] http_ok) absolute_request init_state)
  = Some {| ScrapeResponse.job_id := "job-1"; ScrapeResponse.status := "pending";
            ScrapeResponse.folder_path := "/tmp/elsewhere" |}.
Proof.
  exact (f_equal
           (fun p => Some {| ScrapeResponse.job_id := "job-1";
                             ScrapeResponse.status := "pending";
                             ScrapeResponse.folder_path := p |})
           (start_scrape_folder (sample_world [] http_ok) absolute_request init_state
              (snd (start_scrape (sample_world [] http_ok) absolute_request init_state))
              {| ScrapeResponse.job_id := "job-1"; ScrapeResponse.status := "pending";
                 ScrapeResponse.folder_path := "/tmp/elsewhere" |}
              (TStart "job-1" "cats" (Some 3%Z) "/tmp/elsewhere") eq_refl)).
Defined.

(** X17: cancelling a pending job.  The call returns the success message and
    changes nothing but that record's status, which becomes "cancelled";
    a poll then shows "cancelled" with the other fields as before (or, for
    a job created with a null count, raises pydantic's validation error as
    it did before the cancellation); a second cancellation of the same job
    is refused with HTTP 400 and changes nothing. *)
Theorem cancel_job_pending (st : State) (job_id : string) (j : Job) :
  job_statuses st !! job_id = Some j ->
  status j = "pending" ->
  let st' := set_job_statuses (insert job_id (with_status "cancelled" j)) st in
  cancel_job job_id st = (Ok "Job cancelled successfully", st')
  /\ job_statuses st' !! job_id
     = Some {| status := "cancelled"; images_scraped := images_scraped j;
               total_images := total_images j; folder_path := folder_path j |}
  /\ fst (get_job_status job_id st')
     = match total_images j with
       | Some n =>
           Ok {| JobStatus.job_id := job_id;
                 JobStatus.status := "cancelled";
                 JobStatus.images_scraped := images_scraped j;
                 JobStatus.total_images := n;
                 JobStatus.folder_path := folder_path j |}
       | None => Raise (ValidationError "JobStatus" "total_images")
       end
  /\ cancel_job job_id st'
     = (Raise (HTTPException 400 "Job cannot be cancelled in its current state"), st').
Proof.
  intros Hj Hs st'. split_and!.
  - unfold cancel_job. rewrite Hj, Hs. simpl. unfold bind.
    by rewrite (update_job_present _ _ _ _ Hj).
  - subst st'. simpl. by rewrite lookup_insert_eq.
  - unfold get_job_status. subst st'. simpl. rewrite lookup_insert_eq. simpl.
    by destruct (total_images j).
  - unfold cancel_job. subst st'. simpl. by rewrite lookup_insert_eq.
Qed.

Lemma cancel_job_pending_witness :
  cancel_job "job-1" (st_created 3)
  = (Ok "Job cancelled successfully",
     set_job_statuses
       (insert "job-1" {| status := "cancelled"; images_scraped := 0; total_images := Some 3%Z;
                          folder_path := "GoogleSearchImages/out" |})
       (st_created 3)).
Proof.
  apply (cancel_job_pending (st_created 3) "job-1"
           {| status := "pending"; images_scraped := 0; total_images := Some 3%Z;
              folder_path := "GoogleSearchImages/out" |}).
  - vm_compute. reflexivity.
  - reflexivity.
Defined.

(** ** The service over time *)

Lemma after_raise_state {w} job_id e st :
  snd (after_raise w job_id e st) = snd (on_error w job_id e st)
  /\ task_job (fst (after_raise w job_id e st)) = job_id.
Proof. unfold after_raise. by destruct (on_error w job_id e st). Qed.

Lemma task_step_job w t st : task_job (fst (task_step w t st)) = task_job t.
Proof.
  destruct t as [id term n fp|id term fp d idx [|u rest]|id r]; simpl; [| | |done].
  - destruct (prelude w term n st) as [[[d urls]|e] st1]; [done|].
    apply after_raise_state.
  - destruct (finish w id d st) as [[[]|e] st1]; [done|]. apply after_raise_state.
  - destruct (loop_body w id term fp idx u st) as [[[]|e] st1]; [done|].
    apply after_raise_state.
Qed.

(** A step of a task is a pipeline fragment: it touches only the task's job
    and lets every record evolve. *)
Lemma task_step_jobs w t st :
  jobs_only (task_job t) st (snd (task_step w t st))
  /\ jobs_evolve st (snd (task_step w t st)).
Proof.
  destruct t as [id term n fp|id term fp d idx [|u rest]|id r]; simpl; [| | |done].
  - pose proof (keeps_jobs_prelude w term n st) as Hk.
    destruct (prelude w term n st) as [[[d urls]|e] st1]; simpl in *.
    + split; [intros o _; by rewrite Hk|]. intros i j Hj. exists j. by rewrite Hk.
    + rewrite (proj1 (after_raise_state id e st1)).
      destruct (on_error_footprint w id e) as (Oj & _ & _ & _ & Oe).
      split; (etransitivity; [|first [apply Oj|apply Oe]]).
      * intros o _. by rewrite Hk.
      * intros i j Hj. exists j. by rewrite Hk.
  - destruct (finish_jobs w id d) as [Fj Fe]. specialize (Fj st). specialize (Fe st).
    destruct (finish w id d st) as [[[]|e] st1]; simpl in *; [done|].
    rewrite (proj1 (after_raise_state id e st1)).
    destruct (on_error_footprint w id e) as (Oj & _ & _ & _ & Oe).
    split; (etransitivity; [eassumption|first [apply Oj|apply Oe]]).
  - destruct (loop_body_jobs w id term fp idx u) as [Lj Le].
    specialize (Lj st). specialize (Le st).
    destruct (loop_body w id term fp idx u st) as [[[]|e] st1]; simpl in *; [done|].
    rewrite (proj1 (after_raise_state id e st1)).
    destruct (on_error_footprint w id e) as (Oj & _ & _ & _ & Oe).
    split; (etransitivity; [eassumption|first [apply Oj|apply Oe]]).
Qed.

Lemma sys_step_jobs_evolve ev s :
  admissible ev s -> jobs_evolve (state s) (state (sys_step ev s)).
Proof.
  intros Hadm. destruct ev as [w request|job_id|job_id|w n]; simpl in *.
  - pose proof (start_scrape_jobs w request (state s)) as Hs.
    destruct (start_scrape w request (state s)) as [[[resp t]|e] st']; simpl.
    + destruct Hs as (fp & _ & Hst). intros id j Hj. exists j. rewrite Hst.
      rewrite lookup_insert_ne by congruence. done.
    + intros id j Hj. exists j. by rewrite Hs.
  - by rewrite get_job_status_state.
  - destruct (cancel_job_jobs job_id (state s)) as [Hc|(j & Hj & Hc)];
      intros id k Hk; rewrite Hc; [by exists k|].
    destruct (decide (job_id = id)) as [<-|Hne].
    + rewrite lookup_insert_eq. exists (with_status "cancelled" j). split; [done|].
      simplify_eq. by apply job_evolves_with_status.
    + rewrite lookup_insert_ne by done. by exists k.
  - destruct (tasks s !! n) as [t|]; [|done].
    pose proof (task_step_jobs w t (state s)) as [_ He].
    by destruct (task_step w t (state s)).
Qed.

Lemma run_events_jobs_evolve evs : forall s,
  admissible_all evs s -> jobs_evolve (state s) (state (run_events evs s)).
Proof.
  induction evs as [|ev evs IH]; intros s Hadm; [done|]. destruct Hadm as [Ha Hrest].
  etransitivity; [by apply sys_step_jobs_evolve|by apply IH].
Qed.

(** X18: over any sequence of requests and task steps (job ids being fresh
    when handed out), a job that is in the table stays in it, keeps its
    requested count and its folder, and once its status is not "pending" it
    never becomes "pending" again. *)
Theorem jobs_persist (evs : list Event) (s : Sys) (job_id : string) (j : Job) :
  admissible_all evs s ->
  job_statuses (state s) !! job_id = Some j ->
  exists j', job_statuses (state (run_events evs s)) !! job_id = Some j'
    /\ total_images j' = total_images j
    /\ folder_path j' = folder_path j
    /\ (status j <> "pending" -> status j' <> "pending").
Proof.
  intros Hadm Hj. destruct (run_events_jobs_evolve evs s Hadm _ _ Hj) as (j' & Hj' & He).
  exists j'. split; [done|]. exact He.
Qed.

Lemma jobs_persist_witness :
  exists j', job_statuses (state (run_events later_events sys_one_job)) !! "job-1" = Some j'
    /\ total_images j' = Some 3%Z
    /\ folder_path j' = "GoogleSearchImages/out"
    /\ ("pending" <> "pending" -> status j' <> "pending").
Proof.
  apply (jobs_persist later_events sys_one_job "job-1"
           {| status := "pending"; images_scraped := 0; total_images := Some 3%Z;
              folder_path := "GoogleSearchImages/out" |}).
  - vm_compute. tauto.
  - vm_compute. reflexivity.
Defined.

#[local] Instance progress_le_preorder : PreOrder progress_le.
Proof.
  split.
  - intros st id j Hj. exists j. split; [done|lia].
  - intros a b c Hab Hbc id j Hj. destruct (Hab _ _ Hj) as (j' & Hj' & E').
    destruct (Hbc _ _ Hj') as (j'' & Hj'' & E''). exists j''. split; [done|lia].
Qed.

Lemma progress_ok_images t j j' :
  images_scraped j' = images_scraped j -> progress_ok t j -> progress_ok t j'.
Proof. intros E. destruct t; simpl; by rewrite ?E. Qed.

Lemma after_raise_progress {w} job_id e st j :
  job_statuses st !! job_id = Some j ->
  exists j', job_statuses (snd (after_raise w job_id e st)) !! job_id = Some j'
    /\ progress_ok (fst (after_raise w job_id e st)) j'
    /\ images_scraped j' = images_scraped j.
Proof.
  intros Hj. unfold after_raise. rewrite (on_error_present _ _ _ _ Hj). simpl.
  exists (with_status "failed" j). by rewrite lookup_insert_eq.
Qed.

(** One step of a task keeps its progress in line with its record and never
    lowers [images_scraped]. *)
Lemma task_step_progress w t st j :
  job_statuses st !! task_job t = Some j ->
  progress_ok t j ->
  exists j', job_statuses (snd (task_step w t st)) !! task_job t = Some j'
    /\ progress_ok (fst (task_step w t st)) j'
    /\ (images_scraped j <= images_scraped j')%Z.
Proof.
  intros Hj Hok.
  destruct t as [id term n fp|id term fp d idx [|u rest]|id r]; simpl in *.
  - pose proof (keeps_jobs_prelude w term n st) as Hk.
    destruct (prelude w term n st) as [[[d urls]|e] st1]; simpl in Hk;
      rewrite <- Hk in Hj.
    + exists j. simpl. split; [done|]. split; lia.
    + destruct (after_raise_progress (w:=w) id e st1 j Hj) as (j' & ? & ? & E).
      exists j'. split; [done|]. split; [done|lia].
  - unfold finish, bind. rewrite (update_job_present _ _ _ _ Hj).
    match goal with |- context [quit w d ?s] =>
      pose proof (keeps_jobs_quit w d s) as Hq; destruct (quit w d s) as [[[]|e] st2]
    end; simpl in Hq.
    + exists (with_status "completed" j). simpl. rewrite Hq, lookup_insert_eq.
      split; [done|]. split; [done|]. simpl. lia.
    + destruct (after_raise_progress (w:=w) id e st2 (with_status "completed" j))
        as (j' & ? & ? & E).
      { by rewrite Hq, lookup_insert_eq. }
      exists j'. split; [done|]. split; [done|]. simpl in E. lia.
  - unfold loop_body, bind. rewrite Hj.
    pose proof (keeps_jobs_save_image w u fp (term +:+ "_" +:+ pretty idx) 3 st) as Hk.
    destruct (save_image w u fp _ 3 st) as [[[]|e] st1]; simpl in Hk; rewrite <- Hk in Hj.
    + rewrite (update_job_present _ _ _ _ Hj). simpl.
      exists (with_images_scraped idx j). rewrite lookup_insert_eq.
      split; [done|]. simpl. lia.
    + destruct (after_raise_progress (w:=w) id e st1 j Hj) as (j' & ? & ? & E).
      exists j'. split; [done|]. split; [done|lia].
  - exists j. split; [done|]. split; [done|lia].
Qed.

Lemma task_job_insert (l : list Task) n t t' :
  l !! n = Some t -> task_job t' = task_job t ->
  task_job <$> <[n := t']> l = task_job <$> l.
Proof.
  intros Hn Ht. rewrite list_fmap_insert, Ht. apply list_insert_id.
  by rewrite list_lookup_fmap, Hn.
Qed.

Lemma sys_step_progress ev s :
  admissible ev s -> progress_inv s ->
  progress_inv (sys_step ev s) /\ progress_le (state s) (state (sys_step ev s)).
Proof.
  intros Hadm (Hnd & Htasks & Hpos).
  destruct ev as [w request|job_id|job_id|w n]; simpl in *.
  - (* POST /scrape *)
    pose proof (start_scrape_jobs w request (state s)) as Hs.
    destruct (start_scrape w request (state s)) as [[[resp t]|e] st']; simpl.
    + destruct Hs as (fp & -> & Hst).
      assert (forall t, t ∈ tasks s -> task_job t <> uuid4 w) as Hfresh.
      { intros t Ht E. destruct (Htasks t Ht) as (j & Hj & _). congruence. }
      split; [split_and!|]; simpl.
      * rewrite fmap_app. apply NoDup_app. split; [done|]. split; [|apply NoDup_singleton].
        intros id Hid. apply list_elem_of_fmap in Hid as (t & -> & Ht).
        intros Hin. apply list_elem_of_singleton in Hin. by eapply Hfresh.
      * intros t Ht. apply elem_of_app in Ht as [Ht|Ht].
        -- destruct (Htasks t Ht) as (j & Hj & Hok). exists j. rewrite Hst.
           rewrite lookup_insert_ne; [done|]. intros E. by eapply Hfresh.
        -- apply list_elem_of_singleton in Ht as ->. simpl. eexists. rewrite Hst.
           by rewrite lookup_insert_eq.
      * intros id j. rewrite Hst. destruct (decide (uuid4 w = id)) as [<-|Hne].
        -- rewrite lookup_insert_eq. by intros [= <-].
        -- rewrite lookup_insert_ne by done. apply Hpos.
      * intros id j Hj. exists j. rewrite Hst.
        rewrite lookup_insert_ne by congruence. split; [done|lia].
    + split; [|intros id j Hj; exists j; rewrite Hs; split; [done|lia]].
      split_and!; simpl; [done| |].
      * intros t Ht. rewrite Hs. auto.
      * intros id j. rewrite Hs. apply Hpos.
  - (* GET /status *)
    rewrite get_job_status_state. split; [done|reflexivity].
  - (* DELETE /cancel *)
    destruct (cancel_job_jobs job_id (state s)) as [Hc|(j & Hj & Hc)].
    + split; [|intros id k Hk; exists k; rewrite Hc; split; [done|lia]].
      split_and!; simpl; [done| |].
      * intros t Ht. rewrite Hc. auto.
      * intros id k. rewrite Hc. apply Hpos.
    + split; [split_and!|]; simpl; [done| | |].
      * intros t Ht. destruct (Htasks t Ht) as (k & Hk & Hok). rewrite Hc.
        destruct (decide (job_id = task_job t)) as [E|Hne].
        -- rewrite <- E, lookup_insert_eq. exists (with_status "cancelled" j).
           split; [done|]. rewrite <- E in Hk. simplify_eq.
           by eapply progress_ok_images.
        -- rewrite lookup_insert_ne by done. eauto.
      * intros id k. rewrite Hc. destruct (decide (job_id = id)) as [<-|Hne].
        -- rewrite lookup_insert_eq. intros [= <-]. simpl. by eapply Hpos.
        -- rewrite lookup_insert_ne by done. apply Hpos.
      * intros id k Hk. rewrite Hc. destruct (decide (job_id = id)) as [<-|Hne].
        -- rewrite lookup_insert_eq. exists (with_status "cancelled" j).
           split; [done|]. simplify_eq. simpl. lia.
        -- rewrite lookup_insert_ne by done. exists k. split; [done|lia].
  - (* the scheduler advances a task *)
    destruct (tasks s !! n) as [t|] eqn:Ht; [|split; [done|reflexivity]].
    assert (t ∈ tasks s) as Hin by (by eapply list_elem_of_lookup_2).
    destruct (Htasks t Hin) as (j & Hj & Hok).
    destruct (task_step_progress w t (state s) j Hj Hok) as (j' & Hj' & Hok' & Hle).
    pose proof (task_step_job w t (state s)) as Hjob.
    pose proof (task_step_jobs w t (state s)) as [Honly _].
    destruct (task_step w t (state s)) as [t' st']; simpl in *.
    assert (forall id k, job_statuses (state s) !! id = Some k ->
              exists k', job_statuses st' !! id = Some k'
                /\ (images_scraped k <= images_scraped k')%Z) as Hmono.
    { intros id k Hk. destruct (decide (id = task_job t)) as [->|Hne].
      - exists j'. split; [done|]. by simplify_eq.
      - exists k. rewrite (Honly id Hne). split; [done|lia]. }
    split; [split_and!|done]; simpl.
    + by rewrite (task_job_insert _ _ t).
    + intros t2 Ht2. apply list_elem_of_lookup in Ht2 as (i & Hi).
      destruct (decide (i = n)) as [->|Hne].
      * rewrite list_lookup_insert_eq in Hi by (by eapply lookup_lt_Some).
        injection Hi as <-. rewrite Hjob. eauto.
      * rewrite list_lookup_insert_ne in Hi by done.
        assert (t2 ∈ tasks s) as Hin2 by (by eapply list_elem_of_lookup_2).
        destruct (Htasks t2 Hin2) as (k & Hk & Hok2). exists k. split; [|done].
        rewrite Honly; [done|]. intros E. apply Hne.
        eapply (NoDup_lookup _ i n (task_job t2) Hnd);
          rewrite list_lookup_fmap; [by rewrite Hi|by rewrite Ht, E].
    + intros id k Hk. destruct (decide (id = task_job t)) as [->|Hne].
      * rewrite Hj' in Hk. injection Hk as <-. specialize (Hpos _ _ Hj). lia.
      * rewrite (Honly id Hne) in Hk. by eapply Hpos.
Qed.

Lemma reachable_progress_inv s : reachable s -> progress_inv s.
Proof.
  induction 1 as [st Hst|s ev _ IH Hadm].
  - split_and!; simpl.
    + constructor.
    + intros t Ht. by apply elem_of_nil in Ht.
    + intros id j. by rewrite Hst, lookup_empty.
  - by apply sys_step_progress.
Qed.

Lemma run_events_progress evs : forall s,
  progress_inv s -> admissible_all evs s ->
  progress_le (state s) (state (run_events evs s)).
Proof.
  induction evs as [|ev evs IH]; intros s Hinv Hadm; [reflexivity|].
  destruct Hadm as [Ha Hrest]. destruct (sys_step_progress ev s Ha Hinv) as [Hinv' Hle].
  etransitivity; [exact Hle|by apply IH].
Qed.

(** X19: progress only goes forward.  In every state the service can reach,
    [images_scraped] of every job is at least 0, and over any further
    requests and task steps it never decreases. *)
Theorem images_scraped_monotone (evs : list Event) (s : Sys) (job_id : string) (j : Job) :
  reachable s ->
  admissible_all evs s ->
  job_statuses (state s) !! job_id = Some j ->
  (0 <= images_scraped j)%Z
  /\ exists j', job_statuses (state (run_events evs s)) !! job_id = Some j'
       /\ (images_scraped j <= images_scraped j')%Z.
Proof.
  intros Hr Hadm Hj. pose proof (reachable_progress_inv s Hr) as Hinv.
  split; [by eapply Hinv|]. by eapply run_events_progress.
Qed.

Lemma reachable_one_job : reachable sys_one_job.
Proof.
  apply reach_step; [by apply reach_init|]. vm_compute. reflexivity.
Defined.

Lemma images_scraped_monotone_witness :
  (0 <= 0)%Z
  /\ exists j', job_statuses (state (run_events later_events sys_one_job)) !! "job-1" = Some j'
       /\ (0 <= images_scraped j')%Z.
Proof.
  apply (images_scraped_monotone later_events sys_one_job "job-1"
           {| status := "pending"; images_scraped := 0; total_images := Some 3%Z;
              folder_path := "GoogleSearchImages/out" |}).
  - exact reachable_one_job.
  - vm_compute. tauto.
  - vm_compute. reflexivity.
Defined.

(** ** Runs in which nothing outside fails *)

Lemma fetch_attempts_returns w image_url file_path n : forall st,
  (forall k u, is_ok (requests_get w k u) = true) ->
  (forall p, is_ok (open_wb w p) = true) ->
  fst (fetch_attempts w image_url file_path n st) = Ok tt.
Proof.
  induction n as [|n IH]; intros st Hget Hopen; [done|]. simpl. unfold bind, http_get.
  pose proof (Hget (gets st) image_url) as Hg.
  destruct (requests_get w (gets st) image_url) as [resp|]; [|done].
  destruct (status_code resp =? 200)%Z; [|by apply IH].
  unfold write_file, bind, lift. pose proof (Hopen file_path) as Ho.
  by destruct (open_wb w file_path) as [[]|].
Qed.

Lemma save_image_returns w image_url folder_path file_name n st :
  (forall k u, is_ok (requests_get w k u) = true) ->
  (forall p, is_ok (open_wb w p) = true) ->
  inline_ok w image_url ->
  fst (save_image w image_url folder_path file_name n st) = Ok tt.
Proof.
  intros Hget Hopen Hinline.
  destruct (startswith "data:image/" image_url) eqn:Hs.
  - rewrite save_image_inline by done. destruct (Hinline Hs) as (h & enc & -> & Hdec).
    unfold try_except, bind, lift.
    destruct (b64decode w enc) as [data|]; [|done].
    unfold write_file, bind, lift. specialize (Hopen (image_path folder_path file_name)).
    by destruct (open_wb w _) as [[]|].
  - rewrite save_image_remote by done. unfold try_except.
    pose proof (fetch_attempts_returns w image_url
                  (os_path_join folder_path (file_name +:+ ".jpg")) n st Hget Hopen) as Hf.
    destruct (fetch_attempts w image_url _ n st) as [[[]|] st']; done.
Qed.

Lemma for_images_returns w job_id search_term folder_path image_urls :
  forall index st,
    (forall k u, is_ok (requests_get w k u) = true) ->
    (forall p, is_ok (open_wb w p) = true) ->
    (forall u, u ∈ image_urls -> inline_ok w u) ->
    fst (for_images w job_id search_term folder_path index image_urls st) = Ok tt.
Proof.
  induction image_urls as [|u rest IH]; intros index st Hget Hopen Hcomma; [done|].
  cbn [for_images]. unfold bind at 1.
  assert (fst (loop_body w job_id search_term folder_path index u st) = Ok tt) as Hb.
  { unfold loop_body. destruct (job_statuses st !! job_id) as [j|] eqn:Hj; [|done].
    unfold bind.
    pose proof (save_image_returns w u folder_path (search_term +:+ "_" +:+ pretty index)
                  3 st Hget Hopen (Hcomma u ltac:(left))) as Hs.
    pose proof (keeps_jobs_save_image w u folder_path
                  (search_term +:+ "_" +:+ pretty index) 3 st) as Hk.
    destruct (save_image w u folder_path _ 3 st) as [[[]|] st1]; [|done].
    simpl in Hk. rewrite <- Hk in Hj. by rewrite (update_job_present _ _ _ _ Hj). }
  destruct (loop_body w job_id search_term folder_path index u st) as [[[]|] st1];
    [|done].
  apply IH; try done. intros u' Hu'. apply Hcomma. by right.
Qed.

(** X20: no spurious failure.  For a job that is in the table, when the
    browser starts, loads the page, scrolls, lists elements with readable
    dimensions and quits without error, every GET returns some response
    (whatever its status), every file can be written and every inline
    candidate has a comma followed by a payload the decoder accepts, the
    task returns normally and the job is "completed". *)
Theorem scrape_images_task_succeeds (w : World) (job_id search_term : string)
    (num_images : option Z) (folder : string) (st : State) (j : Job) :
  job_statuses st !! job_id = Some j ->
  webdriver_Chrome w = Ok tt ->
  (forall url, driver_get w url = Ok tt) ->
  scroll_down w 5 = Ok tt ->
  is_ok (scrape_all_images w) = true ->
  driver_quit w = Ok tt ->
  (forall k u, is_ok (requests_get w k u) = true) ->
  (forall p, is_ok (open_wb w p) = true) ->
  (forall u, u ∈ candidates w num_images -> inline_ok w u) ->
  let r := scrape_images_task w job_id search_term num_images folder st in
  fst r = Ok tt
  /\ status <$> job_statuses (snd r) !! job_id = Some "completed".
Proof.
  intros Hj Hchrome Hload Hscroll Hextract Hquit Hget Hopen Hcomma r.
  assert (fst r = Ok tt) as Hr.
  { subst r. rewrite scrape_images_task_unfold.
    unfold prelude, create_driver, try_except, bind, lift, ret.
    rewrite Hchrome. simpl. rewrite Hload, Hscroll.
    unfold candidates in Hcomma.
    destruct (scrape_all_images w) as [urls|]; [|done]. simpl.
    match goal with |- context [for_images w job_id search_term folder 1 ?l ?s] =>
      pose proof (for_images_returns w job_id search_term folder l 1 s
                    Hget Hopen Hcomma) as Hf;
      destruct (for_images_jobs w job_id search_term folder l 1) as [_ He];
      specialize (He s);
      destruct (for_images w job_id search_term folder 1 l s) as [[[]|] st2]
    end; [|done].
    simpl in He. destruct (He job_id j) as (j2 & Hj2 & _); [done|].
    unfold finish, bind. rewrite (update_job_present _ _ _ _ Hj2).
    unfold quit, bind, lift. by rewrite Hquit. }
  split; [done|].
  pose proof (scrape_images_task_ends w job_id search_term num_images folder st j Hj)
    as Ho.
  cbv zeta in Ho. fold r in Ho. rewrite Hr in Ho. by rewrite Ho.
Qed.

Lemma scrape_images_task_succeeds_witness :
  let r := scrape_images_task (sample_world page_cats http_404) "job-1" "cats" (Some 3%Z)
             "GoogleSearchImages/out" (st_created 3) in
  fst r = Ok tt
  /\ status <$> job_statuses (snd r) !! "job-1" = Some "completed".
Proof.
  apply (scrape_images_task_succeeds (sample_world page_cats http_404) "job-1" "cats" (Some 3%Z)
           "GoogleSearchImages/out" (st_created 3)
           {| status := "pending"; images_scraped := 0; total_images := Some 3%Z;
              folder_path := "GoogleSearchImages/out" |});
    try reflexivity.
  intros u Hu.
  change (candidates (sample_world page_cats http_404) (Some 3%Z))
    with ["http://img.example/1.jpg"; "data:image/png;base64,QUJD"] in Hu.
  apply elem_of_cons in Hu as [->|Hu]; [discriminate|].
  apply list_elem_of_singleton in Hu as ->.
  intros _. exists "data:image/png;base64", "QUJD". split; reflexivity.
Defined.

(** ** A job created with a null count

    The record holds [None] as its requested count, the slice keeps every
    candidate, the run completes, and every poll of the job raises. *)
Lemma null_count_job :
  lookup_job "job-1" st_null_count_run
  = Some {| status := "completed"; images_scraped := 2; total_images := None;
            folder_path := "GoogleSearchImages/out" |}
  /\ fst (get_job_status "job-1" st_null_count_run)
     = Raise (ValidationError "JobStatus" "total_images")
  /\ polled "job-1" st_null_count_run = None.
Proof. vm_compute. done. Qed.
